(** * tts-service: a shallow embedding of the streaming TTS endpoint

    The development follows the three source files of the repository:

    - [app.py]: the engine pool ([ENGINES], [get_engine], [lifespan]), the
      per-request streaming bridge ([stream_tts_bytes]) and the [GET /tts]
      endpoint ([tts]), together with the module-level [__main__] guard;
    - [factory.py]: [TTSFactory.engines] and [TTSFactory.create];
    - [plugins/xtts_plugin.py]: [XTTSPlugin.build_engine].

    Module-level mutable state is threaded explicitly through a small
    state-and-exception monad; callbacks fired by the synthesis library are
    an explicit schedule of events interleaved with the consumer loop. *)

From Stdlib Require Import ZArith QArith List String Ascii Bool Lia.
From Stdlib Require Import Strings.Byte.
From Stdlib Require Import Floats.SpecFloat.
From stdpp Require Import base gmap strings list.

Local Open Scope string_scope.

(** ** Python values, exceptions and outcomes *)

(** The keyword-argument values that travel through the factory ([Any] in the
    source).  Only their identity matters to the code under study. *)
Inductive pyval : Type :=
| VNone
| VBool (b : bool)
| VInt (z : Z)
| VStr (s : string).

(** Keyword arguments: a Python [dict] with [str] keys. *)
Abbreviation kwargs := (gmap string pyval).

(** The exceptions that the modelled code raises or lets through. *)
Inductive exn : Type :=
| KeyError (msg : string)
| TypeError_multiple_values (callee keyword : string)
| EngineLoadError (lang : string) (attempt : nat)
| ForeignError (detail : string).

(** Result of running a piece of code: a value, a raised exception, or a
    coroutine parked on a lock that somebody else holds. *)
Inductive outcome (A : Type) : Type :=
| Return (a : A)
| Raise (e : exn)
| Suspended.
Arguments Return {A} a.
Arguments Raise {A} e.
Arguments Suspended {A}.

(** ** The engine pool of [app.py] *)

Module Pool.

(** A constructed [KokoroEngine].  [engine_id] is the identity of the object
    (the ordinal of the constructor call that produced it). *)
Record KokoroEngine : Type := mkEngine {
  engine_id : nat;
  lang_code : string
}.

(** Module-level state of [app.py], plus two observers of the constructor:
    [ctor_calls] counts every call of [KokoroEngine(...)], [built] lists the
    languages whose construction completed (latest first); [stdout] collects
    what [print] wrote. *)
Record process : Type := mkProcess {
  ENGINES : gmap string KokoroEngine;
  ENGINE_LOCK : bool;
  ctor_calls : nat;
  built : list string;
  stdout : list string
}.

(** State of a freshly imported module: [ENGINES = {}], lock free. *)
Definition fresh : process :=
  {| ENGINES := ∅; ENGINE_LOCK := false; ctor_calls := 0;
     built := []; stdout := [] |}.

(** [PRELOAD_LANGS = ["a", "b"]] *)
Definition PRELOAD_LANGS : list string := ["a"; "b"].

(** Computations over the process state. *)
Definition M (A : Type) : Type := process -> outcome A * process.

Definition ret {A} (a : A) : M A := fun st => (Return a, st).
Definition raise {A} (e : exn) : M A := fun st => (Raise e, st).
Definition bind {A B} (m : M A) (k : A -> M B) : M B :=
  fun st =>
    match m st with
    | (Return a, st') => k a st'
    | (Raise e, st') => (Raise e, st')
    | (Suspended, st') => (Suspended, st')
    end.

Notation "'let*' x ':=' m 'in' k" := (bind m (fun x => k))
  (at level 10, x name, m at level 100, k at level 200, only parsing).
Notation "m '>>' k" := (bind m (fun _ => k))
  (at level 90, right associativity, only parsing).

Definition print (line : string) : M unit :=
  fun st => (Return tt,
             {| ENGINES := ENGINES st; ENGINE_LOCK := ENGINE_LOCK st;
                ctor_calls := ctor_calls st; built := built st;
                stdout := stdout st ++ [line] |}).

Definition set_lock (b : bool) (st : process) : process :=
  {| ENGINES := ENGINES st; ENGINE_LOCK := b;
     ctor_calls := ctor_calls st; built := built st; stdout := stdout st |}.

(** [async with ENGINE_LOCK: body]: the lock is taken when it is free, the
    body runs, and the lock is released on the way out, also when the body
    raises.  When the lock is held the coroutine is parked. *)
Definition with_ENGINE_LOCK {A} (body : M A) : M A :=
  fun st =>
    if ENGINE_LOCK st then (Suspended, st)
    else
      let '(r, st') := body (set_lock true st) in
      (r, set_lock false st').

Section WithConstructor.

(** The constructor of the synthesis library is outside the repository: it
    loads a model and may fail.  [load_fails n lang] tells whether the call
    number [n] of the process, for language [lang], raises. *)
Variable load_fails : nat -> string -> bool.

(** [KokoroEngine(lang_code=lang)] *)
Definition KokoroEngine_new (lang : string) : M KokoroEngine :=
  fun st =>
    let n := ctor_calls st in
    if load_fails n lang then
      (Raise (EngineLoadError lang n),
       {| ENGINES := ENGINES st; ENGINE_LOCK := ENGINE_LOCK st;
          ctor_calls := S n; built := built st; stdout := stdout st |})
    else
      (Return (mkEngine n lang),
       {| ENGINES := ENGINES st; ENGINE_LOCK := ENGINE_LOCK st;
          ctor_calls := S n; built := lang :: built st;
          stdout := stdout st |}).

(** [ENGINES[lang] = e] *)
Definition store_engine (lang : string) (e : KokoroEngine) : M unit :=
  fun st => (Return tt,
             {| ENGINES := <[lang := e]> (ENGINES st);
                ENGINE_LOCK := ENGINE_LOCK st;
                ctor_calls := ctor_calls st; built := built st;
                stdout := stdout st |}).

(** [return ENGINES[lang]]; a missing key is Python's [KeyError]. *)
Definition read_engine (lang : string) : M KokoroEngine :=
  fun st =>
    match ENGINES st !! lang with
    | Some e => (Return e, st)
    | None => (Raise (KeyError lang), st)
    end.

Definition has_engine (lang : string) : M bool :=
  fun st => (Return (bool_decide (is_Some (ENGINES st !! lang))), st).

(** [get_engine], lines 20-29 of [app.py]. *)
Definition get_engine (lang_code : string) : M KokoroEngine :=
  let* cached := has_engine lang_code in
  if cached then read_engine lang_code
  else
    with_ENGINE_LOCK (
      let* present := has_engine lang_code in
      (if present then ret tt
       else
         let* e := KokoroEngine_new lang_code in
         store_engine lang_code e >>
         print ("[LazyLoad] KokoroEngine loaded for lang_code='"
                  ++ lang_code ++ "'")) >>
      read_engine lang_code).

(** The [for lang in PRELOAD_LANGS] loop of [lifespan]. *)
Fixpoint preload_loop (langs : list string) : M unit :=
  match langs with
  | [] => ret tt
  | lang :: rest =>
      let* present := has_engine lang in
      (if present then ret tt
       else
         let* e := KokoroEngine_new lang in
         store_engine lang e >>
         print ("[Startup] Preloaded KokoroEngine for lang_code='"
                  ++ lang ++ "'")) >>
      preload_loop rest
  end.

(** [lifespan], the part before [yield]. *)
Definition lifespan_enter : M unit :=
  with_ENGINE_LOCK (preload_loop PRELOAD_LANGS) >>
  print "[Startup] All preloads done.".

(** [ENGINES.clear()] *)
Definition clear_engines : M unit :=
  fun st => (Return tt,
             {| ENGINES := ∅; ENGINE_LOCK := ENGINE_LOCK st;
                ctor_calls := ctor_calls st; built := built st;
                stdout := stdout st |}).

(** [lifespan], the part after [yield]. *)
Definition lifespan_exit : M unit :=
  with_ENGINE_LOCK clear_engines >>
  print "[Shutdown] Engines cache cleared.".

(** An [asynccontextmanager]: what runs on entry and what runs on exit. *)
Record context_manager : Type := mkCM {
  cm_enter : M unit;
  cm_exit : M unit
}.

Definition lifespan : context_manager :=
  {| cm_enter := lifespan_enter; cm_exit := lifespan_exit |}.

(** The [FastAPI] application object as the constructor call of line 11
    configures it: [FastAPI(title=...)] names no [lifespan], and the module
    registers neither startup nor shutdown handlers. *)
Record FastAPI : Type := mkApp {
  title : string;
  app_lifespan : option context_manager;
  on_startup : list (M unit);
  on_shutdown : list (M unit)
}.

Definition app : FastAPI :=
  {| title := "RealtimeTTS + Kokoro (Preload, Multi-language)";
     app_lifespan := None;
     on_startup := [];
     on_shutdown := [] |}.

Fixpoint run_handlers (hs : list (M unit)) : M unit :=
  match hs with
  | [] => ret tt
  | h :: rest => h >> run_handlers rest
  end.

(** What the server runs before the first request: the lifespan context the
    application was given or, without one, its startup handlers. *)
Definition startup (a : FastAPI) : M unit :=
  match app_lifespan a with
  | Some cm => cm_enter cm
  | None => run_handlers (on_startup a)
  end.

(** What the server runs when it stops. *)
Definition shutdown (a : FastAPI) : M unit :=
  match app_lifespan a with
  | Some cm => cm_exit cm
  | None => run_handlers (on_shutdown a)
  end.

(** A sequence of requests, each resolving its engine, served one after the
    other; a failed lookup does not stop the next request. *)
Fixpoint serve_langs (langs : list string) (st : process) : process :=
  match langs with
  | [] => st
  | l :: rest => serve_langs rest (snd (get_engine l st))
  end.

End WithConstructor.

(** The state left by a construction that raised: one more constructor
    call, nothing stored, lock released. *)
Definition after_failed_load (st : process) : process :=
  {| ENGINES := ENGINES st; ENGINE_LOCK := false;
     ctor_calls := S (ctor_calls st); built := built st;
     stdout := stdout st |}.

(** The state left by a construction that completed. *)
Definition after_load (lang : string) (st : process) : process :=
  {| ENGINES := <[lang := mkEngine (ctor_calls st) lang]> (ENGINES st);
     ENGINE_LOCK := false;
     ctor_calls := S (ctor_calls st); built := lang :: built st;
     stdout := stdout st ++
       ["[LazyLoad] KokoroEngine loaded for lang_code='" ++ lang ++ "'"] |}.

(** Every language whose construction completed is held by the pool, and
    none completed twice. *)
Definition pool_inv (st : process) : Prop :=
  NoDup (built st) /\ forall l, l ∈ built st -> is_Some (ENGINES st !! l).

(** Every entry of the pool is an engine built for the language it is
    filed under, by a constructor call that has already happened. *)
Definition pool_sound (st : process) : Prop :=
  forall l e, ENGINES st !! l = Some e ->
              lang_code e = l /\ engine_id e < ctor_calls st.

End Pool.

(** ** The streaming bridge of [app.py] *)

Module Bridge.

(** An audio chunk: a Python [bytes] object. *)
Abbreviation chunk := (list byte).

(** Where the consumer loop of [stream_tts_bytes] stands:
    - [AtTop]: about to evaluate [done.is_set() and q.empty()];
    - [AtGet]: inside [await asyncio.wait_for(q.get(), timeout=0.1)];
    - [Stopped]: the [break] was taken, the generator is exhausted. *)
Inductive position : Type := AtTop | AtGet | Stopped.

(** The request-scoped objects: the queue [q], the event [done], the
    position of the loop, and the chunks handed to the HTTP layer so far. *)
Record bridge : Type := mkBridge {
  q : list chunk;
  done : bool;
  at_ : position;
  yielded : list chunk
}.

(** [q = asyncio.Queue()], [done = asyncio.Event()], loop not entered. *)
Definition fresh_bridge : bridge :=
  {| q := []; done := false; at_ := AtTop; yielded := [] |}.

(** [on_chunk(b)]: [q.put_nowait(b)] on an unbounded queue. *)
Definition on_chunk (b : chunk) (st : bridge) : bridge :=
  {| q := q st ++ [b]; done := done st; at_ := at_ st;
     yielded := yielded st |}.

(** [on_stop()]: [done.set()]. *)
Definition on_stop (st : bridge) : bridge :=
  {| q := q st; done := true; at_ := at_ st; yielded := yielded st |}.

(** One move of the consumer, lines 78-85.
    - At the top of the loop the test [done.is_set() and q.empty()] either
      breaks or falls into the [try].
    - In [wait_for(q.get(), 0.1)] a queued chunk is taken from the head and
      yielded; with nothing queued the wait runs out, [TimeoutError] is
      caught, and [continue] goes back to the top. *)
Definition advance (st : bridge) : bridge :=
  match at_ st with
  | AtTop =>
      if done st && bool_decide (q st = [])
      then {| q := q st; done := done st; at_ := Stopped;
              yielded := yielded st |}
      else {| q := q st; done := done st; at_ := AtGet;
              yielded := yielded st |}
  | AtGet =>
      match q st with
      | c :: rest =>
          {| q := rest; done := done st; at_ := AtTop;
             yielded := yielded st ++ [c] |}
      | [] =>
          {| q := []; done := done st; at_ := AtTop;
             yielded := yielded st |}
      end
  | Stopped => st
  end.

(** What can happen next to a running request: the synthesis session calls
    one of its two callbacks, or the consumer makes one move. *)
Inductive event : Type :=
| OnChunk (b : chunk)
| OnStop
| Advance.

Definition step (st : bridge) (ev : event) : bridge :=
  match ev with
  | OnChunk b => on_chunk b st
  | OnStop => on_stop st
  | Advance => advance st
  end.

(** A schedule is one interleaving of producer callbacks and consumer
    moves; [run] plays it from a given state. *)
Definition run (sched : list event) (st : bridge) : bridge :=
  fold_left step sched st.

(** Observers of a schedule. *)
Fixpoint enqueued (sched : list event) : list chunk :=
  match sched with
  | [] => []
  | OnChunk b :: rest => b :: enqueued rest
  | _ :: rest => enqueued rest
  end.

Fixpoint enqueued_before_stop (sched : list event) : list chunk :=
  match sched with
  | [] => []
  | OnChunk b :: rest => b :: enqueued_before_stop rest
  | OnStop :: _ => []
  | Advance :: rest => enqueued_before_stop rest
  end.

Fixpoint advances (sched : list event) : nat :=
  match sched with
  | [] => 0
  | Advance :: rest => S (advances rest)
  | _ :: rest => advances rest
  end.

Fixpoint stop_signalled (sched : list event) : bool :=
  match sched with
  | [] => false
  | OnStop :: _ => true
  | _ :: rest => stop_signalled rest
  end.


(** The number of consumer moves that exhaust the generator when stop has
    been signalled and nothing more is enqueued. *)
Definition moves_left (st : bridge) : nat :=
  match at_ st with
  | Stopped => 0
  | AtTop => 2 * length (q st) + 1
  | AtGet =>
      match q st with
      | [] => 2
      | _ :: _ => 2 * length (q st)
      end
  end.

(** The arguments captured by the generator object that a call of
    [stream_tts_bytes(text, voice, speed, lang)] returns; nothing of the
    body has run yet. *)
Record generator : Type := mkGen {
  g_text : string;
  g_voice : string;
  g_speed : spec_float;
  g_lang : string
}.

Definition stream_tts_bytes (text voice : string) (speed : spec_float)
    (lang : string) : generator :=
  {| g_text := text; g_voice := voice; g_speed := speed; g_lang := lang |}.

(** The session started by lines 63-76: the stream built on the pooled
    engine, and the utterance passed to [play_async] and [feed]. *)
Record session : Type := mkSession {
  s_engine : Pool.KokoroEngine;
  s_muted : bool;
  s_voice : string;
  s_speed : spec_float;
  s_text : string
}.

(** Lines 51-76: the part of the body that runs before the loop. *)
Definition open_session (load_fails : nat -> string -> bool)
    (g : generator) : Pool.M session :=
  Pool.bind (Pool.get_engine load_fails (g_lang g)) (fun engine =>
  Pool.ret {| s_engine := engine; s_muted := true;
              s_voice := g_voice g; s_speed := g_speed g;
              s_text := g_text g |}).

(** Driving the generator under a schedule: the engine is resolved, then
    the loop runs against the callbacks of the session. *)
Definition drive (load_fails : nat -> string -> bool) (g : generator)
    (sched : list event) : Pool.M bridge :=
  Pool.bind (open_session load_fails g) (fun _ =>
  Pool.ret (run sched fresh_bridge)).

End Bridge.

(** ** The [GET /tts] endpoint of [app.py] *)

Module Endpoint.

(** IEEE binary64 values, as Python's [float]. *)
Definition prec : Z := 53.
Definition emax : Z := 1024.

Definition float_le (x y : spec_float) : bool := SFleb x y.

(** The literals [0.5], [1.0] and [2.0] of line 93. *)
Definition f0_5 : spec_float := S754_finite false 4503599627370496 (-53).
Definition f1_0 : spec_float := S754_finite false 4503599627370496 (-52).
Definition f2_0 : spec_float := S754_finite false 4503599627370496 (-51).

(** The doubles nearest to the decimals [0.49] and [2.01]. *)
Definition f0_49 : spec_float := S754_finite false 8827055269646172 (-54).
Definition f2_01 : spec_float := S754_finite false 4526117625507348 (-51).

(** The constraints [ge=0.5, le=2.0] of the [speed] declaration, as the
    comparisons of Python floats; a NaN passes neither. *)
Definition speed_in_range (x : spec_float) : bool :=
  float_le f0_5 x && float_le x f2_0.

(** The rational number a float stands for; infinities and NaN stand for
    none.  A finite binary64 number has an exponent of at least [-1074]. *)
Definition float_value (x : spec_float) : option Q :=
  match x with
  | S754_zero _ => Some 0%Q
  | S754_finite s m e =>
      Some (Qmake ((if s then Z.neg m else Z.pos m) * 2 ^ (e + 1074))
              (2 ^ 1074)%positive)
  | S754_infinity _ | S754_nan => None
  end.

(** The float stands for a number of the interval from 0.5 to 2. *)
Definition value_in_range (x : spec_float) : Prop :=
  exists v, float_value x = Some v /\ (1 # 2 <= v)%Q /\ (v <= 2)%Q.

(** A query parameter as the request carries it: absent, present with a
    value of the declared type, or present but not convertible to it. *)
Inductive supplied (A : Type) : Type :=
| Omitted
| Unparsable
| Given (a : A).
Arguments Omitted {A}.
Arguments Unparsable {A}.
Arguments Given {A} a.

(** A [Query(default, ...)] declaration: [None] stands for the required
    marker [...]; [q_check] is the conjunction of the declared constraints. *)
Record Query (A : Type) : Type := mkQuery {
  q_default : option A;
  q_check : A -> bool
}.
Arguments mkQuery {A}.
Arguments q_default {A}.
Arguments q_check {A}.

(** Resolution of one parameter; [None] is a validation error. *)
Definition resolve {A} (decl : Query A) (v : supplied A) : option A :=
  match v with
  | Omitted => q_default decl
  | Unparsable => None
  | Given a => if q_check decl a then Some a else None
  end.

(** The four declarations of lines 90-93. *)
Definition text_query : Query string :=
  mkQuery None (fun s => (1 <=? String.length s)%nat).
Definition voice_query : Query string :=
  mkQuery (Some "af_heart") (fun _ => true).
Definition lang_query : Query string :=
  mkQuery (Some "a") (fun _ => true).
Definition speed_query : Query spec_float :=
  mkQuery (Some f1_0) speed_in_range.

Record request : Type := mkRequest {
  r_text : supplied string;
  r_voice : supplied string;
  r_lang : supplied string;
  r_speed : supplied spec_float
}.

(** [StreamingResponse(content, media_type=..., headers=...)]; the status
    code is the constructor's default. *)
Record StreamingResponse : Type := mkResponse {
  status_code : nat;
  media_type : string;
  headers : list (string * string);
  body_iterator : Bridge.generator
}.

Definition StreamingResponse_new (content : Bridge.generator)
    (media_type : string) (headers : list (string * string))
    : StreamingResponse :=
  {| status_code := 200; media_type := media_type; headers := headers;
     body_iterator := content |}.

(** The body of [tts], lines 95-104. *)
Definition tts (text voice lang : string) (speed : spec_float)
    : StreamingResponse :=
  let generator := Bridge.stream_tts_bytes text voice speed lang in
  StreamingResponse_new generator "audio/pcm"
    [("X-Audio-Sample-Rate", "24000");
     ("X-Audio-Codec", "s16le");
     ("X-Audio-Channels", "1")].

(** What the client gets: the handler's response, or the framework's
    validation error naming the offending parameters. *)
Inductive reply : Type :=
| Unprocessable422 (bad : list string)
| Handled (r : StreamingResponse).

Definition complaint {A} (name : string) (o : option A) : list string :=
  match o with
  | Some _ => []
  | None => [name]
  end.

(** The route [@app.get("/tts")]: every parameter is resolved against its
    declaration; the handler runs only when all four resolve. *)
Definition GET_tts (r : request) : reply :=
  let text := resolve text_query (r_text r) in
  let voice := resolve voice_query (r_voice r) in
  let lang := resolve lang_query (r_lang r) in
  let speed := resolve speed_query (r_speed r) in
  match text, voice, lang, speed with
  | Some t, Some v, Some l, Some s => Handled (tts t v l s)
  | _, _, _, _ =>
      Unprocessable422 (complaint "text" text ++ complaint "voice" voice
                        ++ complaint "lang" lang ++ complaint "speed" speed)
  end.

Definition status_of (rp : reply) : nat :=
  match rp with
  | Unprocessable422 _ => 422
  | Handled r => status_code r
  end.

(** A request is valid when each of its parameters resolves. *)
Definition valid (r : request) : bool :=
  bool_decide (is_Some (resolve text_query (r_text r)))
  && bool_decide (is_Some (resolve voice_query (r_voice r)))
  && bool_decide (is_Some (resolve lang_query (r_lang r)))
  && bool_decide (is_Some (resolve speed_query (r_speed r))).


End Endpoint.

(** ** The module-level guard at the end of [app.py] *)

Module MainGuard.

(** What the guarded branch would do. *)
Inductive effect : Type :=
| UvicornRun (host : string) (port : Z).

(** Line 107 compares two string literals; the module's own [__name__]
    variable, whatever it holds, does not take part. *)
Definition guard (dunder_name : string) : bool :=
  String.eqb "__name__" "__main__".

(** Lines 107-115, for a module executed under the name [dunder_name]. *)
Definition module_tail (dunder_name : string) : list effect :=
  if guard dunder_name then [UvicornRun "0.0.0.0" 1006] else [].

End MainGuard.

(** ** [factory.py] *)

Module Factory.

(** *** Python's [repr] of a [str], used by the f-string of line 14 *)

(** A Rocq [string] holds the UTF-8 bytes of a Python [str].  [repr] works
    on characters, so the bytes are first grouped into characters. *)
Record pychar : Type := mkChar {
  code_point : N;
  encoding : string
}.

Definition is_cont (b : N) : bool := ((128 <=? b) && (b <=? 191))%N.
Definition low6 (b : N) : N := N.land b 63.

(** The code point of a well-formed two-, three- or four-byte sequence:
    shortest form only, no surrogate, at most U+10FFFF. *)
Definition seq2 (b1 b2 : N) : option N :=
  if ((194 <=? b1) && (b1 <=? 223))%N && is_cont b2
  then Some (N.land b1 31 * 64 + low6 b2)%N
  else None.

Definition seq3 (b1 b2 b3 : N) : option N :=
  if ((224 <=? b1) && (b1 <=? 239))%N && is_cont b2 && is_cont b3 then
    let cp := (N.land b1 15 * 4096 + low6 b2 * 64 + low6 b3)%N in
    if ((2048 <=? cp) && negb ((55296 <=? cp) && (cp <=? 57343)))%N
    then Some cp else None
  else None.

Definition seq4 (b1 b2 b3 b4 : N) : option N :=
  if ((240 <=? b1) && (b1 <=? 244))%N && is_cont b2 && is_cont b3
     && is_cont b4 then
    let cp := (N.land b1 7 * 262144 + low6 b2 * 4096 + low6 b3 * 64
               + low6 b4)%N in
    if ((65536 <=? cp) && (cp <=? 1114111))%N then Some cp else None
  else None.

(** The characters of a text.  A byte from 128 up that is not part of a
    well-formed sequence is no text of its own; it counts as the lone
    surrogate U+DC00 + byte under which Python's [surrogateescape] keeps
    such a byte in a [str]. *)
Fixpoint chars (s : string) : list pychar :=
  match s with
  | EmptyString => []
  | String a1 r1 =>
      let b1 := N_of_ascii a1 in
      let single (cp : N) := mkChar cp (String a1 "") :: chars r1 in
      if (b1 <? 128)%N then single b1
      else
        match r1 with
        | EmptyString => single (56320 + b1)%N
        | String a2 r2 =>
            match seq2 b1 (N_of_ascii a2) with
            | Some cp => mkChar cp (String a1 (String a2 "")) :: chars r2
            | None =>
                match r2 with
                | EmptyString => single (56320 + b1)%N
                | String a3 r3 =>
                    match seq3 b1 (N_of_ascii a2) (N_of_ascii a3) with
                    | Some cp =>
                        mkChar cp (String a1 (String a2 (String a3 "")))
                        :: chars r3
                    | None =>
                        match r3 with
                        | EmptyString => single (56320 + b1)%N
                        | String a4 r4 =>
                            match seq4 b1 (N_of_ascii a2) (N_of_ascii a3)
                                    (N_of_ascii a4) with
                            | Some cp =>
                                mkChar cp
                                  (String a1 (String a2
                                     (String a3 (String a4 ""))))
                                :: chars r4
                            | None => single (56320 + b1)%N
                            end
                        end
                    end
                end
            end
        end
  end.

Definition hex_digit (n : N) : ascii :=
  match String.get (N.to_nat n) "0123456789abcdef" with
  | Some c => c
  | None => "0"%char
  end.

(** [n] in lower-case hexadecimal, on [width] digits. *)
Fixpoint hex_fixed (width : nat) (n : N) : string :=
  match width with
  | O => ""
  | S w => hex_fixed w (n / 16)%N ++ String (hex_digit (n mod 16)%N) ""
  end.

Definition contains_char (c : ascii) (s : string) : bool :=
  existsb (Ascii.eqb c) (list_ascii_of_string s).

(** The quote [repr] wraps the text in: a double quote exactly when the
    text has a single quote and no double quote. *)
Definition repr_quote (s : string) : ascii :=
  if contains_char "'"%char s && negb (contains_char (ascii_of_nat 34) s)
  then ascii_of_nat 34 else "'"%char.

Section WithUnicode.

(** Which characters above U+00FF [str.isprintable] accepts is a table of
    the interpreter's Unicode database. *)
Variable unicode_printable : N -> bool.

(** [str.isprintable] of one character.  In ASCII the printable ones run
    from the space to the tilde; in Latin-1 the controls U+0080 to U+009F,
    the no-break space U+00A0 and the soft hyphen U+00AD are not printable;
    surrogates never are. *)
Definition printable (cp : N) : bool :=
  if (cp <? 128)%N then ((32 <=? cp) && (cp <? 127))%N
  else if (cp <? 256)%N then ((161 <=? cp) && negb (cp =? 173))%N
  else if ((55296 <=? cp) && (cp <=? 57343))%N then false
  else unicode_printable cp.

(** One character of the text, as [repr] writes it: the backslash and the
    wrapping quote behind a backslash, tab, newline and carriage return by
    their letters, any other character that is not printable as [\xhh],
    [\uhhhh] or [\Uhhhhhhhh] by the size of its code point, and a printable
    character as it stands. *)
Definition repr_char (quote : ascii) (c : pychar) : string :=
  let n := code_point c in
  if (n =? 92)%N then "\\"
  else if (n =? N_of_ascii quote)%N then String "\"%char (String quote "")
  else if (n =? 9)%N then "\t"
  else if (n =? 10)%N then "\n"
  else if (n =? 13)%N then "\r"
  else if printable n then encoding c
  else if (n <? 256)%N then "\x" ++ hex_fixed 2 n
  else if (n <? 65536)%N then "\u" ++ hex_fixed 4 n
  else "\U" ++ hex_fixed 8 n.

Fixpoint repr_body (quote : ascii) (cs : list pychar) : string :=
  match cs with
  | [] => ""
  | c :: rest => repr_char quote c ++ repr_body quote rest
  end.

Definition repr_str (s : string) : string :=
  let quote := repr_quote s in
  String quote (repr_body quote (chars s) ++ String quote "").

Fixpoint join (sep : string) (parts : list string) : string :=
  match parts with
  | [] => ""
  | [x] => x
  | x :: rest => x ++ sep ++ join sep rest
  end.

(** [repr] of a list of [str]. *)
Definition repr_list (l : list string) : string :=
  "[" ++ join ", " (map repr_str l) ++ "]".

(** *** The registry and the factory *)

(** A plugin class as the factory sees it: a callable taking keyword
    arguments.  [cls_init] tells whether the initialiser rejects them. *)
Record PluginClass : Type := mkClass {
  cls_name : string;
  cls_init : kwargs -> option exn
}.

(** An instance of a plugin class. *)
Record plugin : Type := mkPlugin {
  instance_of : PluginClass;
  engine_kwargs : kwargs
}.

(** Modelled from the spec: [get_registry] of [realtimetts_plugins], which is
    not among the sources.  The registry is a process-wide mapping from a
    unique name to a constructor, filled by self-registration; it is kept in
    insertion order, as the [dict] whose keys [engines] lists. *)
Definition registry : Type := list (string * PluginClass).

(** Modelled from the spec: [get_plugin_class] of [realtimetts_plugins], the
    lookup of a name in that mapping, with no result for an unregistered
    name. *)
Fixpoint get_plugin_class (reg : registry) (name : string)
    : option PluginClass :=
  match reg with
  | [] => None
  | (k, cls) :: rest =>
      if String.eqb k name then Some cls else get_plugin_class rest name
  end.

(** Modelled from the spec: the call of a plugin class on keyword
    arguments; the base [BaseTTSPlugin] of [tts_plugin_base] is not among the
    sources.  The instance keeps the keyword configuration it was built
    with, which is what [build_engine] later reads as [self.engine_kwargs]. *)
Definition instantiate (cls : PluginClass) (kw : kwargs) : outcome plugin :=
  match cls_init cls kw with
  | Some e => Raise e
  | None => Return {| instance_of := cls; engine_kwargs := kw |}
  end.

(** [TTSFactory.engines()]: [list(get_registry().keys())]. *)
Definition engines (reg : registry) : list string := map fst reg.

(** The message of line 14. *)
Definition not_found_message (reg : registry) (engine_name : string)
    : string :=
  "Engine '" ++ engine_name ++ "' không tồn tại. Engines: "
    ++ repr_list (engines reg).

(** The body of [TTSFactory.create], lines 12-15.  A class object is
    truthy, so [not cls] holds exactly when the lookup found nothing. *)
Definition create_body (reg : registry) (engine_name : string)
    (engine_kwargs : kwargs) : outcome plugin :=
  match get_plugin_class reg engine_name with
  | None => Raise (KeyError (not_found_message reg engine_name))
  | Some cls => instantiate cls engine_kwargs
  end.

(** The call [TTSFactory.create(engine_name, **kw)].  The signature of line
    11 has the parameter [engine_name] before the catch-all
    [**engine_kwargs]: keyword arguments that themselves name
    [engine_name] give that parameter a second value, which is a
    [TypeError] raised before the body runs; all other keyword arguments
    are what the body sees as [engine_kwargs]. *)
Definition create (reg : registry) (engine_name : string) (kw : kwargs)
    : outcome plugin :=
  if bool_decide (is_Some (kw !! "engine_name"))
  then Raise (TypeError_multiple_values "TTSFactory.create" "engine_name")
  else create_body reg engine_name kw.

End WithUnicode.

(** [needle] occurs in [hay]. *)
Fixpoint occurs_in (needle hay : string) : bool :=
  String.prefix needle hay ||
  match hay with
  | EmptyString => false
  | String _ rest => occurs_in needle rest
  end.

End Factory.

(** ** [plugins/xtts_plugin.py] *)

Module XTTS.

(** [XTTSPlugin.key()] *)
Definition key : string := "xtts".

(** The call [dict(name=v, **star)]: a keyword given both by name and
    through the unpacked mapping is a [TypeError]; otherwise the result
    holds the named entry and every entry of the mapping. *)
Definition dict_call (name : string) (v : pyval) (star : kwargs)
    : outcome kwargs :=
  if bool_decide (is_Some (star !! name))
  then Raise (TypeError_multiple_values "dict" name)
  else Return (<[name := v]> star).

Section WithCoqui.

(** [CoquiEngine] belongs to the synthesis library: any callable on
    keyword arguments. *)
Variable CoquiEngine_t : Type.
Variable CoquiEngine : kwargs -> outcome CoquiEngine_t.

(** [XTTSPlugin.build_engine], lines 16-18. *)
Definition build_engine (self : Factory.plugin) : outcome CoquiEngine_t :=
  match dict_call "model" (VStr "xtts") (Factory.engine_kwargs self) with
  | Return kw => CoquiEngine kw
  | Raise e => Raise e
  | Suspended => Suspended
  end.

End WithCoqui.

(** The class as it registers itself under [key]; nothing is known of the
    base initialiser beyond its keeping the keyword configuration. *)
Definition XTTSPlugin : Factory.PluginClass :=
  {| Factory.cls_name := "XTTSPlugin"; Factory.cls_init := fun _ => None |}.

End XTTS.

(** * Properties *)

(** ** The engine pool *)

Module PoolFacts.
Import Pool.

Section Facts.

Variable load_fails : nat -> string -> bool.

(** Runs the monadic code of the pool forward, using the facts at hand
    about the mapping, the lock and the constructor. *)
Ltac pool_run :=
  unfold get_engine, bind, has_engine, with_ENGINE_LOCK, KokoroEngine_new,
    store_engine, print, read_engine, ret;
  repeat first
    [ progress cbn
    | match goal with
      | H : ENGINES _ !! _ = _ |- _ => rewrite H
      | H : ENGINE_LOCK _ = _ |- _ => rewrite H
      | H : load_fails _ _ = _ |- _ => rewrite H
      end
    | rewrite bool_decide_eq_true_2 by eauto
    | rewrite bool_decide_eq_false_2 by (intros [? ?]; discriminate)
    | rewrite lookup_insert_eq ].

Lemma get_engine_hit (lang : string) (e : KokoroEngine) (st : process) :
  ENGINES st !! lang = Some e ->
  get_engine load_fails lang st = (Return e, st).
Proof. intros H. pool_run. reflexivity. Qed.

Lemma get_engine_locked (lang : string) (st : process) :
  ENGINES st !! lang = None -> ENGINE_LOCK st = true ->
  get_engine load_fails lang st = (Suspended, st).
Proof.
  intros H L. pool_run. reflexivity.
Qed.

Lemma get_engine_miss_raise (lang : string) (st : process) :
  ENGINES st !! lang = None -> ENGINE_LOCK st = false ->
  load_fails (ctor_calls st) lang = true ->
  get_engine load_fails lang st
  = (Raise (EngineLoadError lang (ctor_calls st)), after_failed_load st).
Proof.
  intros H L F. pool_run. reflexivity.
Qed.

Lemma get_engine_miss_return (lang : string) (st : process) :
  ENGINES st !! lang = None -> ENGINE_LOCK st = false ->
  load_fails (ctor_calls st) lang = false ->
  get_engine load_fails lang st
  = (Return (mkEngine (ctor_calls st) lang), after_load lang st).
Proof.
  intros H L F. pool_run. reflexivity.
Qed.

(** The four ways a call of [get_engine] can go. *)
Lemma get_engine_cases (lang : string) (st : process) :
  (exists e, ENGINES st !! lang = Some e /\
             get_engine load_fails lang st = (Return e, st))
  \/ (ENGINES st !! lang = None /\ ENGINE_LOCK st = true /\
      get_engine load_fails lang st = (Suspended, st))
  \/ (ENGINES st !! lang = None /\ ENGINE_LOCK st = false /\
      load_fails (ctor_calls st) lang = true /\
      get_engine load_fails lang st
      = (Raise (EngineLoadError lang (ctor_calls st)), after_failed_load st))
  \/ (ENGINES st !! lang = None /\ ENGINE_LOCK st = false /\
      load_fails (ctor_calls st) lang = false /\
      get_engine load_fails lang st
      = (Return (mkEngine (ctor_calls st) lang), after_load lang st)).
Proof.
  destruct (ENGINES st !! lang) as [e|] eqn:H.
  - left. exists e. split; [reflexivity | by apply get_engine_hit].
  - right. destruct (ENGINE_LOCK st) eqn:L.
    + left. repeat split; try done. by apply get_engine_locked.
    + right. destruct (load_fails (ctor_calls st) lang) eqn:F.
      * left. repeat split; try done. by apply get_engine_miss_raise.
      * right. repeat split; try done. by apply get_engine_miss_return.
Qed.

(** A returned engine is the one the pool holds for the language. *)
Lemma get_engine_returns_cached (lang : string) (st st1 : process)
    (e : KokoroEngine) :
  get_engine load_fails lang st = (Return e, st1) ->
  ENGINES st1 !! lang = Some e.
Proof.
  intros H.
  destruct (get_engine_cases lang st)
    as [(e' & He & G) | [(_ & _ & G) | [(_ & _ & _ & G) | (_ & _ & _ & G)]]];
    rewrite G in H; inversion H; subst; clear H.
  - exact He.
  - cbn. apply lookup_insert_eq.
Qed.

Lemma pool_inv_fresh : pool_inv fresh.
Proof.
  split; [constructor | intros l H; cbn in H; by apply not_elem_of_nil in H].
Qed.

Lemma pool_inv_get_engine (lang : string) (st : process) :
  pool_inv st -> pool_inv (snd (get_engine load_fails lang st)).
Proof.
  intros [ND Held].
  destruct (get_engine_cases lang st)
    as [(e' & He & G) | [(_ & _ & G) | [(_ & _ & _ & G) | (Hn & _ & _ & G)]]];
    rewrite G; cbn; try (split; assumption).
  split; cbn.
  - constructor; [| exact ND].
    intros Hin. apply Held in Hin. rewrite Hn in Hin.
    destruct Hin; discriminate.
  - intros l Hl. apply elem_of_cons in Hl as [-> | Hl].
    + rewrite lookup_insert_eq. eauto.
    + destruct (decide (lang = l)) as [-> | Hne].
      * rewrite lookup_insert_eq. eauto.
      * rewrite lookup_insert_ne by done. by apply Held.
Qed.

Lemma pool_inv_serve (langs : list string) (st : process) :
  pool_inv st -> pool_inv (serve_langs load_fails langs st).
Proof.
  revert st. induction langs as [| l rest IH]; intros st Hinv; cbn.
  - exact Hinv.
  - apply IH. by apply pool_inv_get_engine.
Qed.

Lemma NoDup_count_le_1 (l : list string) (x : string) :
  NoDup l -> count_occ string_dec l x <= 1.
Proof.
  intros ND. apply NoDup_ListNoDup in ND.
  rewrite (List.NoDup_count_occ string_dec) in ND. apply ND.
Qed.

(** An engine held by the pool stays, unchanged, through later calls. *)
Lemma get_engine_keeps (lang l : string) (e : KokoroEngine) (st : process) :
  ENGINES st !! l = Some e ->
  ENGINES (snd (get_engine load_fails lang st)) !! l = Some e.
Proof.
  intros H.
  destruct (get_engine_cases lang st)
    as [(e' & He & G) | [(_ & _ & G) | [(_ & _ & _ & G) | (Hn & _ & _ & G)]]];
    rewrite G; cbn; try exact H.
  rewrite lookup_insert_ne; [exact H |].
  intros ->. rewrite H in Hn. discriminate.
Qed.

Lemma serve_langs_keeps (langs : list string) (l : string)
    (e : KokoroEngine) (st : process) :
  ENGINES st !! l = Some e ->
  ENGINES (serve_langs load_fails langs st) !! l = Some e.
Proof.
  revert st. induction langs as [| x rest IH]; intros st H; cbn.
  - exact H.
  - apply IH. by apply get_engine_keeps.
Qed.

(** C3: once [get_engine] has returned an engine for a language, a later
    call for that language, also after calls for other languages, returns
    that very instance and leaves the process as it was, so it calls the
    constructor no more; and over any sequence of calls from a fresh
    process the construction of one language completes at most once. *)
Theorem get_engine_constructs_once (lang : string) (st st1 : process)
    (e : KokoroEngine) :
  get_engine load_fails lang st = (Return e, st1) ->
  (forall between : list string,
     let st2 := serve_langs load_fails between st1 in
     get_engine load_fails lang st2 = (Return e, st2)
     /\ ctor_calls (snd (get_engine load_fails lang st2)) = ctor_calls st2)
  /\ (forall langs : list string,
       count_occ string_dec
         (built (serve_langs load_fails langs fresh)) lang <= 1).
Proof.
  intros H. split.
  - intros between st2.
    assert (Hheld : ENGINES st2 !! lang = Some e).
    { apply serve_langs_keeps. by eapply get_engine_returns_cached. }
    rewrite (get_engine_hit _ _ _ Hheld). split; reflexivity.
  - intros langs. apply NoDup_count_le_1.
    apply (pool_inv_serve langs fresh pool_inv_fresh).
Qed.

(** C4: when the constructor raises, [get_engine] raises the same
    exception, the mapping is as before with no entry for the language, the
    lock is free again, and the next call for the language calls the
    constructor anew, returning a fresh engine if that call succeeds. *)
Theorem get_engine_failure_not_cached (lang : string) (st : process) :
  ENGINES st !! lang = None ->
  ENGINE_LOCK st = false ->
  load_fails (ctor_calls st) lang = true ->
  let r := get_engine load_fails lang st in
  fst r = Raise (EngineLoadError lang (ctor_calls st))
  /\ ENGINES (snd r) = ENGINES st
  /\ ENGINES (snd r) !! lang = None
  /\ ENGINE_LOCK (snd r) = false
  /\ ctor_calls (snd (get_engine load_fails lang (snd r)))
     = S (S (ctor_calls st))
  /\ (load_fails (S (ctor_calls st)) lang = false ->
      fst (get_engine load_fails lang (snd r))
      = Return (mkEngine (S (ctor_calls st)) lang)).
Proof.
  intros H L F r. subst r.
  rewrite (get_engine_miss_raise lang st H L F). cbn [fst snd].
  assert (H' : ENGINES (after_failed_load st) !! lang = None) by exact H.
  assert (L' : ENGINE_LOCK (after_failed_load st) = false) by reflexivity.
  repeat split; try done.
  - destruct (load_fails (S (ctor_calls st)) lang) eqn:F2.
    + by rewrite (get_engine_miss_raise lang _ H' L' F2).
    + by rewrite (get_engine_miss_return lang _ H' L' F2).
  - intros F2. by rewrite (get_engine_miss_return lang _ H' L' F2).
Qed.

(** What [lifespan] does when it is entered on a fresh process whose first
    two constructor calls succeed: both hot languages are in the pool. *)
Lemma lifespan_enter_preloads :
  load_fails 0 "a" = false -> load_fails 1 "b" = false ->
  let st := snd (cm_enter (lifespan load_fails) fresh) in
  ENGINES st !! "a" = Some (mkEngine 0 "a")
  /\ ENGINES st !! "b" = Some (mkEngine 1 "b")
  /\ ctor_calls st = 2.
Proof.
  intros Fa Fb. cbn. unfold lifespan_enter, preload_loop, PRELOAD_LANGS.
  pool_run. repeat split; by simplify_map_eq.
Qed.

(** What [lifespan] does when it is left: the pool is emptied. *)
Lemma lifespan_exit_clears (st : process) :
  ENGINE_LOCK st = false ->
  ENGINES (snd (cm_exit (lifespan load_fails) st)) = ∅.
Proof.
  intros L. cbn. unfold lifespan_exit, clear_engines. pool_run. reflexivity.
Qed.

(** C5: the application object of line 11 carries no lifespan and no
    startup handler, so starting the server leaves the pool empty, and the
    first request for the hot language ["a"] is the one that calls the
    constructor (and prints the lazy-load line). *)
Theorem startup_leaves_pool_empty :
  app_lifespan app = None
  /\ startup app fresh = (Return tt, fresh)
  /\ ENGINES (snd (startup app fresh)) = ∅
  /\ ctor_calls (snd (startup app fresh)) = 0
  /\ ctor_calls (snd (get_engine load_fails "a" (snd (startup app fresh))))
     = 1
  /\ shutdown app = run_handlers [].
Proof.
  repeat split; try reflexivity.
  change (snd (startup app fresh)) with fresh.
  destruct (get_engine_cases "a" fresh)
    as [(e' & He & G) | [(_ & L & G) | [(_ & _ & _ & G) | (_ & _ & _ & G)]]];
    rewrite G; try reflexivity.
  - cbn in He. rewrite lookup_empty in He. discriminate.
  - cbn in L. discriminate.
Qed.

End Facts.

(** The hypothesis of C3 at a concrete call: a constructor that never
    fails, language ["a"], fresh process. *)
Lemma get_engine_constructs_once_witness :
  get_engine (fun _ _ => false) "a" fresh
  = (Return (mkEngine 0 "a"), snd (get_engine (fun _ _ => false) "a" fresh))
  /\ get_engine (fun _ _ => false) "a"
       (snd (get_engine (fun _ _ => false) "a" fresh))
     = (Return (mkEngine 0 "a"),
        snd (get_engine (fun _ _ => false) "a" fresh)).
Proof.
  assert (H : get_engine (fun _ _ => false) "a" fresh
              = (Return (mkEngine 0 "a"),
                 snd (get_engine (fun _ _ => false) "a" fresh))).
  { vm_compute. reflexivity. }
  split; [exact H |].
  exact (proj1 (proj1 (get_engine_constructs_once (fun _ _ => false) "a"
                         fresh _ _ H) [])).
Defined.

(** The hypotheses of C4 at a concrete call: a constructor whose first call
    fails and whose later calls succeed. *)
Lemma get_engine_failure_not_cached_witness :
  fst (get_engine (fun n _ => Nat.eqb n 0) "a" fresh)
  = Raise (EngineLoadError "a" 0).
Proof.
  refine (proj1 (get_engine_failure_not_cached (fun n _ => Nat.eqb n 0)
                   "a" fresh _ _ _)); reflexivity.
Defined.

End PoolFacts.

(** ** The streaming bridge *)

Module BridgeFacts.
Import Bridge.
Local Open Scope list_scope.

Lemma run_app (s1 s2 : list event) (st : bridge) :
  run (s1 ++ s2) st = run s2 (run s1 st).
Proof. unfold run. apply fold_left_app. Qed.

Lemma run_snoc (s : list event) (ev : event) (st : bridge) :
  run (s ++ [ev]) st = step (run s st) ev.
Proof. rewrite run_app. reflexivity. Qed.

Lemma enqueued_app (s1 s2 : list event) :
  enqueued (s1 ++ s2) = enqueued s1 ++ enqueued s2.
Proof.
  induction s1 as [| [b | |] rest IH]; cbn; [done | | done | done].
  by rewrite IH.
Qed.

Lemma advances_app (s1 s2 : list event) :
  advances (s1 ++ s2) = advances s1 + advances s2.
Proof.
  induction s1 as [| [b | |] rest IH]; cbn; [done | done | done |].
  by rewrite IH.
Qed.

Lemma stop_signalled_app (s1 s2 : list event) :
  stop_signalled (s1 ++ s2) = stop_signalled s1 || stop_signalled s2.
Proof. induction s1 as [| [b | |] rest IH]; cbn; done. Qed.

(** Once stop has been signalled, what comes later does not change the
    chunks counted as enqueued before it. *)
Lemma enqueued_before_stop_app (s1 s2 : list event) :
  stop_signalled s1 = true ->
  enqueued_before_stop (s1 ++ s2) = enqueued_before_stop s1.
Proof.
  induction s1 as [| [b | |] rest IH]; cbn; intros H; try done.
  - by rewrite IH.
  - by apply IH.
Qed.

Lemma enqueued_before_stop_prefix (s : list event) :
  exists later, enqueued s = enqueued_before_stop s ++ later.
Proof.
  induction s as [| [b | |] rest [later IH]]; cbn.
  - by exists [].
  - exists later. by rewrite IH.
  - by exists (enqueued rest).
  - by exists later.
Qed.


(** One event keeps the chunks in order: what has been yielded followed by
    what is queued only grows at the end, by the chunk just enqueued. *)
Lemma step_fifo (st : bridge) (ev : event) :
  yielded (step st ev) ++ q (step st ev)
  = (yielded st ++ q st) ++ enqueued [ev].
Proof.
  destruct ev as [b | |]; cbn.
  - by rewrite app_assoc.
  - by rewrite app_nil_r.
  - rewrite app_nil_r. unfold advance.
    destruct (at_ st); [| | done].
    + destruct (done st && bool_decide (q st = [])); done.
    + destruct (q st) as [| c rest]; cbn; [done |].
      by rewrite <- app_assoc.
Qed.

Lemma run_fifo (s : list event) (st : bridge) :
  yielded (run s st) ++ q (run s st) = (yielded st ++ q st) ++ enqueued s.
Proof.
  induction s as [| ev rest IH] using rev_ind.
  - cbn. by rewrite app_nil_r.
  - rewrite run_snoc, step_fifo, IH, enqueued_app. by rewrite <- !app_assoc.
Qed.

(** [done] is a latch: set by the first [on_stop], never cleared. *)
Lemma run_done (s : list event) (st : bridge) :
  done (run s st) = done st || stop_signalled s.
Proof.
  revert st. induction s as [| ev rest IH]; intros st; cbn.
  - by rewrite orb_false_r.
  - change (fold_left step rest (step st ev)) with (run rest (step st ev)).
    rewrite IH. destruct ev as [b | |]; cbn; try done.
    + by rewrite orb_true_r.
    + unfold advance. destruct (at_ st); [| | done].
      * destruct (done st && bool_decide (q st = [])); done.
      * destruct (q st); done.
Qed.

(** An exhausted generator stays exhausted and yields nothing more. *)
Lemma step_stopped (st : bridge) (ev : event) :
  at_ st = Stopped ->
  at_ (step st ev) = Stopped /\ yielded (step st ev) = yielded st.
Proof.
  intros H. destruct ev as [b | |]; cbn; try done.
  unfold advance. by rewrite H.
Qed.

Lemma run_stopped (s : list event) (st : bridge) :
  at_ st = Stopped ->
  at_ (run s st) = Stopped /\ yielded (run s st) = yielded st.
Proof.
  revert st. induction s as [| ev rest IH]; intros st H; cbn; [done |].
  destruct (step_stopped st ev H) as [H1 H2].
  change (fold_left step rest (step st ev)) with (run rest (step st ev)).
  destruct (IH _ H1) as [H3 H4]. split; [done | congruence].
Qed.

(** The moment of the [break]: when the generator is exhausted, the
    schedule splits into a part in which stop was signalled and whose
    chunks are exactly the yielded ones, and the events that came after. *)
Lemma stopped_split (s : list event) :
  at_ (run s fresh_bridge) = Stopped ->
  exists s1 s2,
    s = s1 ++ s2 /\ stop_signalled s1 = true
    /\ yielded (run s fresh_bridge) = enqueued s1.
Proof.
  induction s as [| ev rest IH] using rev_ind; [done |].
  rewrite run_snoc. remember (run rest fresh_bridge) as X eqn:EX.
  intros H. destruct (at_ X) eqn:P.
  - (* the event is the move that breaks *)
    destruct ev as [b | |]; cbn in H; try congruence.
    unfold advance in H. rewrite P in H.
    destruct (done X) eqn:D; cbn in H; [| congruence].
    destruct (bool_decide (q X = [])) eqn:E; cbn in H; [| congruence].
    apply bool_decide_eq_true_1 in E.
    exists (rest ++ [Advance]), []. rewrite app_nil_r.
    split; [done |]. split.
    + rewrite stop_signalled_app. rewrite EX, run_done in D. cbn in D.
      by rewrite D.
    + pose proof (run_fifo rest fresh_bridge) as F.
      rewrite <- EX, E, app_nil_r in F. cbn in F.
      rewrite enqueued_app, <- F. cbn. unfold advance.
      rewrite P, D, E. cbn. by rewrite app_nil_r.
  - destruct ev as [b | |]; cbn in H; try congruence.
    unfold advance in H. rewrite P in H. destruct (q X); cbn in H; congruence.
  - destruct (IH eq_refl) as (s1 & s2 & -> & S1 & Y).
    exists s1, (s2 ++ [ev]). rewrite app_assoc. split; [done |].
    split; [done |].
    destruct (step_stopped X ev P) as [_ ->]. exact Y.
Qed.

Lemma moves_left_bound (st : bridge) :
  moves_left st <= 2 * length (q st) + 2.
Proof.
  unfold moves_left. destruct (at_ st); [lia | | lia].
  destruct (q st); cbn; lia.
Qed.

Lemma moves_left_0 (st : bridge) : moves_left st = 0 -> at_ st = Stopped.
Proof.
  unfold moves_left. destruct (at_ st); try done; [lia |].
  destruct (q st); cbn; lia.
Qed.

Lemma moves_left_on_chunk (b : chunk) (st : bridge) :
  moves_left (on_chunk b st) <= moves_left st + 2.
Proof.
  unfold moves_left, on_chunk; cbn. destruct (at_ st); [| | lia].
  - rewrite length_app; cbn; lia.
  - destruct (q st); cbn; [lia |]. rewrite length_app; cbn; lia.
Qed.

Lemma moves_left_advance (st : bridge) :
  done st = true -> at_ st <> Stopped ->
  S (moves_left (advance st)) = moves_left st.
Proof.
  intros D N. unfold moves_left, advance. rewrite D.
  destruct (at_ st); [| | done].
  - destruct (q st) as [| c rest]; cbn; [done | lia].
  - destruct (q st) as [| c rest]; cbn; [done | lia].
Qed.

(** With stop signalled, a schedule holding enough consumer moves, whatever
    else it holds, exhausts the generator. *)
Lemma run_exhausts (s : list event) (st : bridge) :
  done st = true ->
  moves_left st + 2 * length (enqueued s) <= advances s ->
  at_ (run s st) = Stopped.
Proof.
  revert st. induction s as [| ev rest IH]; intros st D Hn.
  - cbn in *. apply moves_left_0. lia.
  - change (run (ev :: rest) st) with (run rest (step st ev)).
    destruct ev as [b | |]; cbn in Hn |- *.
    + apply IH; [done |]. pose proof (moves_left_on_chunk b st). lia.
    + apply IH; [done |]. exact Hn.
    + assert (Hpos : at_ st = Stopped \/ at_ st <> Stopped)
        by (destruct (at_ st); auto).
      destruct Hpos as [S | N].
      * apply run_stopped. unfold advance. by rewrite S.
      * apply IH.
        -- unfold advance. destruct (at_ st); [| | done].
           ++ destruct (done st && bool_decide (q st = [])); done.
           ++ destruct (q st); done.
        -- pose proof (moves_left_advance st D N). lia.
Qed.

(** The generator body as a whole: once the pool has handed out the
    engine, the chunks seen by the HTTP layer are those of the loop; when
    the engine cannot be had, the exception leaves the generator before
    anything is yielded. *)
Lemma drive_runs_loop (load_fails : nat -> string -> bool) (g : generator)
    (sched : list event) (st : Pool.process) :
  match Pool.get_engine load_fails (g_lang g) st with
  | (Return _, st') =>
      drive load_fails g sched st = (Return (run sched fresh_bridge), st')
  | (Raise e, st') => drive load_fails g sched st = (Raise e, st')
  | (Suspended, st') => drive load_fails g sched st = (Suspended, st')
  end.
Proof.
  unfold drive, open_session, Pool.bind, Pool.ret.
  destruct (Pool.get_engine load_fails (g_lang g) st) as [[e | e |] st'];
    reflexivity.
Qed.

(** C1: once the session has signalled stop, any continuation of the
    schedule that gives the consumer enough moves (two per chunk queued or
    still to come, plus two) exhausts the generator, so it does not hang;
    every chunk enqueued before the stop signal has then been yielded, in
    order, as the leading part of the output; nothing is yielded after the
    end; and from a state with [done] set and the queue empty two moves of
    the consumer, one run-out wait at most, reach the end. *)
Theorem stream_terminates_and_drains (sched cont : list event) :
  stop_signalled sched = true ->
  2 * (length (q (run sched fresh_bridge)) + length (enqueued cont)) + 2
    <= advances cont ->
  let final := run (sched ++ cont) fresh_bridge in
  at_ final = Stopped
  /\ (exists later,
        yielded final = enqueued_before_stop (sched ++ cont) ++ later)
  /\ (forall more,
        at_ (run ((sched ++ cont) ++ more) fresh_bridge) = Stopped
        /\ yielded (run ((sched ++ cont) ++ more) fresh_bridge)
           = yielded final)
  /\ (forall st,
        done st = true -> q st = [] ->
        at_ (run [Advance; Advance] st) = Stopped
        /\ (at_ st <> Stopped ->
            yielded (run [Advance; Advance] st) = yielded st)).
Proof.
  intros Hstop Hn final.
  assert (Hend : at_ final = Stopped).
  { subst final. rewrite run_app. apply run_exhausts.
    - rewrite run_done, Hstop. apply orb_true_r.
    - pose proof (moves_left_bound (run sched fresh_bridge)). lia. }
  split; [exact Hend |]. split; [| split].
  - destruct (stopped_split _ Hend) as (s1 & s2 & Hs & S1 & Y).
    fold final in Y. rewrite Y, Hs, (enqueued_before_stop_app s1 s2 S1).
    destruct (enqueued_before_stop_prefix s1) as [later E].
    exists later. exact E.
  - intros more. rewrite run_app. by apply run_stopped.
  - intros [q0 d0 p0 y0] D E. cbn in D, E. subst q0 d0.
    destruct p0; cbn; split; done.
Qed.

(** A request in which two chunks arrive, stop is signalled, and the
    consumer is then given six moves. *)
Lemma stream_terminates_and_drains_witness :
  at_ (run ([OnChunk [x01]; OnChunk [x02]; OnStop]
              ++ [Advance; Advance; Advance; Advance; Advance; Advance])
         fresh_bridge) = Stopped.
Proof.
  refine (proj1 (stream_terminates_and_drains
                   [OnChunk [x01]; OnChunk [x02]; OnStop]
                   [Advance; Advance; Advance; Advance; Advance; Advance]
                   _ _)).
  - reflexivity.
  - vm_compute. lia.
Defined.



End BridgeFacts.

(** ** The endpoint *)

Module EndpointFacts.
Import Endpoint.

(** The literals are well-formed binary64 numbers. *)
Lemma literals_valid :
  Forall (fun x => valid_binary prec emax x = true)
    [f0_5; f1_0; f2_0; f0_49; f2_01].
Proof. repeat constructor. Qed.

(** *** What the range test of [speed] means for the number *)

Lemma digits_size (m : positive) : digits2_pos m = Pos.size m.
Proof. induction m; cbn; congruence. Qed.

Lemma digits_bounds (m : positive) :
  (2 ^ (Z.pos (digits2_pos m) - 1) <= Z.pos m < 2 ^ Z.pos (digits2_pos m))%Z.
Proof.
  rewrite digits_size. split.
  - pose proof (Pos.size_le m) as H.
    assert (Z.pos (2 ^ Pos.size m) <= Z.pos m~0)%Z by exact H.
    rewrite Pos2Z.inj_pow in H0.
    replace (Z.pos (Pos.size m)) with (Z.succ (Z.pos (Pos.size m) - 1)) in H0 by lia.
    rewrite Z.pow_succ_r in H0 by lia. lia.
  - pose proof (Pos.size_gt m) as H.
    assert (Z.pos m < Z.pos (2 ^ Pos.size m))%Z by exact H.
    by rewrite Pos2Z.inj_pow in H0.
Qed.

Lemma valid_finite_shape (m : positive) (e : Z) :
  bounded prec emax m e = true ->
  (-1074 <= e <= 971)%Z /\ (Z.pos m < 2 ^ 53)%Z /\ (e = -1074 \/ 2 ^ 52 <= Z.pos m)%Z.
Proof.
  unfold bounded, canonical_mantissa, fexp, emin, prec, emax.
  intros H. apply andb_prop in H as [H1 H2].
  apply Z.eqb_eq in H1. apply Z.leb_le in H2.
  pose proof (digits_bounds m) as [Hlo Hhi].
  set (d := Z.pos (digits2_pos m)) in *.
  assert (0 < d)%Z by (subst d; lia).
  destruct (Z.max_spec (d + e - 53) (3 - 1024 - 53)) as [[Hc Hm] | [Hc Hm]];
    rewrite Hm in H1.
  - (* subnormal *) split; [lia |]. split; [| left; lia].
    eapply Z.lt_le_trans; [exact Hhi |]. apply Z.pow_le_mono_r; lia.
  - assert (d = 53)%Z by lia. split; [lia |]. rewrite H0 in *.
    split; [exact Hhi | right; exact Hlo].
Qed.


(* 2^n for n >= c factors through 2^c *)
Lemma pow2_factor (n c : Z) :
  (0 <= c <= n)%Z -> exists R, (1 <= R)%Z /\ (2 ^ n = 2 ^ c * R)%Z.
Proof.
  intros H. exists (2 ^ (n - c))%Z. split.
  - assert (0 < 2 ^ (n - c))%Z by (apply Z.pow_pos_nonneg; lia). lia.
  - rewrite <- Z.pow_add_r by lia. f_equal. lia.
Qed.

Lemma pow2_pos (n : Z) : (0 <= n)%Z -> (0 < 2 ^ n)%Z.
Proof. intros. apply Z.pow_pos_nonneg; lia. Qed.



Lemma SFleb_finite_pos (m1 : positive) (e1 : Z) (m2 : positive) (e2 : Z) :
  SFleb (S754_finite false m1 e1) (S754_finite false m2 e2)
  = match (e1 ?= e2)%Z with
    | Lt => true
    | Gt => false
    | Eq => (Z.pos m1 <=? Z.pos m2)%Z
    end.
Proof. unfold SFleb, SFcompare. destruct (e1 ?= e2)%Z; reflexivity. Qed.

Lemma lower_bound_test (m : positive) (e : Z) :
  bounded prec emax m e = true ->
  SFleb f0_5 (S754_finite false m e) = true
  <-> (2 ^ 1074 <= 2 * (Z.pos m * 2 ^ (e + 1074)))%Z.
Proof.
  intros V. apply valid_finite_shape in V as ([He1 He2] & Hm & Hn).
  change (2 ^ 53)%Z with 9007199254740992%Z in Hm.
  change (2 ^ 52)%Z with 4503599627370496%Z in Hn.
  unfold f0_5. rewrite SFleb_finite_pos.
  destruct (Z.compare_spec (-53) e) as [<- | Hlt | Hgt].
  - replace (2 ^ 1074)%Z with (2 ^ 53 * 2 ^ (-53 + 1074))%Z
      by (rewrite <- Z.pow_add_r by lia; reflexivity).
    change (2 ^ 53)%Z with 9007199254740992%Z.
    pose proof (pow2_pos (-53 + 1074) ltac:(lia)) as HP.
    generalize dependent (2 ^ (-53 + 1074))%Z. intros P HP.
    destruct (Z.leb_spec 4503599627370496 (Z.pos m)) as [H | H];
      clear - H HP.
    + assert (4503599627370496 * P <= Z.pos m * P)%Z
        by (apply Z.mul_le_mono_nonneg_r; lia).
      split; [intros _; lia | reflexivity].
    + assert (Z.pos m * P < 4503599627370496 * P)%Z
        by (apply (proj1 (Z.mul_lt_mono_pos_r P _ _ HP)); lia).
      split; [discriminate | intros Hle; exfalso; lia].
  - destruct Hn as [-> | Hn]; [lia |].
    destruct (pow2_factor (e + 1074) 1022 ltac:(lia)) as (R & HR & ->).
    replace (2 ^ 1074)%Z with (2 ^ 52 * 2 ^ 1022)%Z
      by (rewrite <- Z.pow_add_r by lia; reflexivity).
    change (2 ^ 52)%Z with 4503599627370496%Z.
    pose proof (pow2_pos 1022 ltac:(lia)) as HP.
    generalize dependent (2 ^ 1022)%Z. intros P HP.
    clear - Hn HR HP.
    assert (P * 1 <= P * R)%Z by (apply Z.mul_le_mono_nonneg_l; lia).
    assert (4503599627370496 * (P * R) <= Z.pos m * (P * R))%Z
      by (apply Z.mul_le_mono_nonneg_r; lia).
    split; [intros _; lia | reflexivity].
  - destruct (pow2_factor 1020 (e + 1074) ltac:(lia)) as (R & HR & E).
    pose proof (pow2_pos (e + 1074) ltac:(lia)) as HP.
    replace (2 ^ 1074)%Z with (2 ^ 54 * 2 ^ 1020)%Z
      by (rewrite <- Z.pow_add_r by lia; reflexivity).
    rewrite E. change (2 ^ 54)%Z with 18014398509481984%Z.
    generalize dependent (2 ^ (e + 1074))%Z. intros P _ HP.
    clear - Hm HR HP.
    assert (P * 1 <= P * R)%Z by (apply Z.mul_le_mono_nonneg_l; lia).
    assert (Z.pos m * P < 9007199254740992 * P)%Z
      by (apply (proj1 (Z.mul_lt_mono_pos_r P _ _ HP)); lia).
    split; [discriminate | intros Hle; exfalso; lia].
Qed.

Lemma upper_bound_test (m : positive) (e : Z) :
  bounded prec emax m e = true ->
  SFleb (S754_finite false m e) f2_0 = true
  <-> (Z.pos m * 2 ^ (e + 1074) <= 2 * 2 ^ 1074)%Z.
Proof.
  intros V. apply valid_finite_shape in V as ([He1 He2] & Hm & Hn).
  change (2 ^ 53)%Z with 9007199254740992%Z in Hm.
  change (2 ^ 52)%Z with 4503599627370496%Z in Hn.
  unfold f2_0. rewrite SFleb_finite_pos.
  destruct (Z.compare_spec e (-51)) as [-> | Hlt | Hgt].
  - replace (2 ^ 1074)%Z with (2 ^ 51 * 2 ^ (-51 + 1074))%Z
      by (rewrite <- Z.pow_add_r by lia; reflexivity).
    change (2 ^ 51)%Z with 2251799813685248%Z.
    pose proof (pow2_pos (-51 + 1074) ltac:(lia)) as HP.
    generalize dependent (2 ^ (-51 + 1074))%Z. intros P HP.
    destruct (Z.leb_spec (Z.pos m) 4503599627370496) as [H | H];
      clear - H HP.
    + assert (Z.pos m * P <= 4503599627370496 * P)%Z
        by (apply Z.mul_le_mono_nonneg_r; lia).
      split; [intros _; lia | reflexivity].
    + assert (4503599627370496 * P < Z.pos m * P)%Z
        by (apply (proj1 (Z.mul_lt_mono_pos_r P _ _ HP)); lia).
      split; [discriminate | intros Hle; exfalso; lia].
  - destruct (pow2_factor 1022 (e + 1074) ltac:(lia)) as (R & HR & E).
    pose proof (pow2_pos (e + 1074) ltac:(lia)) as HP.
    replace (2 ^ 1074)%Z with (2 ^ 52 * 2 ^ 1022)%Z
      by (rewrite <- Z.pow_add_r by lia; reflexivity).
    rewrite E. change (2 ^ 52)%Z with 4503599627370496%Z.
    generalize dependent (2 ^ (e + 1074))%Z. intros P _ HP.
    clear - Hm HR HP.
    assert (P * 1 <= P * R)%Z by (apply Z.mul_le_mono_nonneg_l; lia).
    assert (Z.pos m * P <= 9007199254740992 * P)%Z
      by (apply Z.mul_le_mono_nonneg_r; lia).
    split; [intros _; lia | reflexivity].
  - destruct Hn as [-> | Hn]; [lia |].
    destruct (pow2_factor (e + 1074) 1024 ltac:(lia)) as (R & HR & ->).
    pose proof (pow2_pos 1024 ltac:(lia)) as HP.
    replace (2 ^ 1074)%Z with (2 ^ 50 * 2 ^ 1024)%Z
      by (rewrite <- Z.pow_add_r by lia; reflexivity).
    change (2 ^ 50)%Z with 1125899906842624%Z.
    generalize dependent (2 ^ 1024)%Z. intros P HP.
    clear - Hn HR HP.
    assert (P * 1 <= P * R)%Z by (apply Z.mul_le_mono_nonneg_l; lia).
    assert (4503599627370496 * (P * R) <= Z.pos m * (P * R))%Z
      by (apply Z.mul_le_mono_nonneg_r; lia).
    split; [discriminate | intros Hle; exfalso; lia].
Qed.

Lemma den_1074 : Z.pos (2 ^ 1074) = (2 ^ 1074)%Z.
Proof. apply Pos2Z.inj_pow. Qed.

Lemma speed_in_range_value (x : spec_float) :
  valid_binary prec emax x = true ->
  speed_in_range x = true <-> value_in_range x.
Proof.
  intros V. unfold speed_in_range, value_in_range.
  destruct x as [s | s | | s m e]; cbn [float_value].
  - split; [discriminate |]. intros (v & Ev & H & _). exfalso.
    injection Ev as <-. revert H. unfold Qle. cbn [Qnum Qden]. lia.
  - split; [destruct s; discriminate | intros (v & Ev & _); discriminate].
  - split; [discriminate | intros (v & Ev & _); discriminate].
  - cbn [valid_binary] in V. destruct s.
    + split; [discriminate |]. intros (v & Ev & H & _). exfalso.
      injection Ev as <-. revert H. unfold Qle. cbn [Qnum Qden].
      assert (He : (0 <= e + 1074)%Z)
        by (apply valid_finite_shape in V; lia).
      pose proof (pow2_pos (e + 1074) He) as HP.
      pose proof (Pos2Z.is_pos (2 ^ 1074)) as HT.
      generalize dependent (Z.pos (2 ^ 1074)). intros T HT.
      generalize dependent (2 ^ (e + 1074))%Z. intros P HP Hle.
      assert (Z.neg m * P < 0)%Z by (apply Z.mul_neg_pos; lia).
      lia.
    + rewrite andb_true_iff, (lower_bound_test m e V),
        (upper_bound_test m e V).
      generalize (Z.pos m * 2 ^ (e + 1074))%Z. intros z.
      split.
      * intros [H1 H2]. eexists. split; [reflexivity |].
        unfold Qle. cbn [Qnum Qden]. rewrite den_1074.
        generalize dependent (2 ^ 1074)%Z. intros; lia.
      * intros (v & Ev & H1 & H2). injection Ev as <-.
        unfold Qle in H1, H2. cbn [Qnum Qden] in H1, H2.
        rewrite den_1074 in H1. rewrite den_1074 in H2.
        generalize dependent (2 ^ 1074)%Z. intros; lia.
Qed.

(** *** Validation *)

Lemma resolve_text_some (v : supplied string) (t : string) :
  resolve text_query v = Some t <-> v = Given t /\ t <> "".
Proof.
  destruct v as [| | a]; cbn; [split; [done | by intros [? _]] ..|].
  destruct a as [| c rest]; cbn.
  - split; [done | intros [[= <-] ?]; done].
  - split; [intros [= <-]; done | intros [[= <-] _]; done].
Qed.

(** C6: a request without [text], with an empty [text], or with a [speed]
    that is no number of the interval from 0.5 to 2.0 is answered 422 and
    the handler does not run; [0.49] and [2.01] are refused, [0.5] and [2.0]
    pass; [voice], [lang] and [speed] left out are taken as ["af_heart"],
    ["a"] and [1.0]. *)
Theorem tts_validation :
  (forall r, r_text r = Omitted \/ r_text r = Given "" ->
             status_of (GET_tts r) = 422)
  /\ (forall r x, r_speed r = Given x ->
                  valid_binary prec emax x = true ->
                  ~ value_in_range x ->
                  status_of (GET_tts r) = 422)
  /\ (forall t v l,
        status_of (GET_tts (mkRequest t v l (Given f0_49))) = 422
        /\ status_of (GET_tts (mkRequest t v l (Given f2_01))) = 422)
  /\ (forall t, t <> "" ->
        GET_tts (mkRequest (Given t) Omitted Omitted (Given f0_5))
        = Handled (tts t "af_heart" "a" f0_5)
        /\ GET_tts (mkRequest (Given t) Omitted Omitted (Given f2_0))
           = Handled (tts t "af_heart" "a" f2_0))
  /\ (forall t, t <> "" ->
        GET_tts (mkRequest (Given t) Omitted Omitted Omitted)
        = Handled (tts t "af_heart" "a" f1_0)).
Proof.
  assert (Hbad : forall r, resolve text_query (r_text r) = None ->
                           status_of (GET_tts r) = 422).
  { intros r H. unfold GET_tts. rewrite H. reflexivity. }
  assert (Hspeed : forall r, resolve speed_query (r_speed r) = None ->
                             status_of (GET_tts r) = 422).
  { intros r H. unfold GET_tts. rewrite H.
    destruct (resolve text_query _), (resolve voice_query _),
      (resolve lang_query _); reflexivity. }
  assert (Hgood : forall t, t <> "" ->
            resolve text_query (Given t) = Some t).
  { intros t Ht. by apply resolve_text_some. }
  split; [| split; [| split; [| split]]].
  - intros r [H | H]; apply Hbad; rewrite H; reflexivity.
  - intros r x H V Hx. apply Hspeed. rewrite H.
    cbn [resolve speed_query q_check].
    destruct (speed_in_range x) eqn:E; [| reflexivity].
    exfalso. apply Hx. by apply speed_in_range_value.
  - intros t v l. split; apply Hspeed; reflexivity.
  - intros t H. unfold GET_tts. cbn [r_text r_voice r_lang r_speed].
    rewrite (Hgood t H). split; reflexivity.
  - intros t H. unfold GET_tts. cbn [r_text r_voice r_lang r_speed].
    rewrite (Hgood t H). reflexivity.
Qed.

(** The request [GET /tts?text=hello], and the same with [speed=0.49]. *)
Lemma tts_validation_witness :
  GET_tts (mkRequest (Given "hello") Omitted Omitted Omitted)
  = Handled (tts "hello" "af_heart" "a" f1_0)
  /\ status_of (GET_tts (mkRequest (Given "hello") Omitted Omitted
                          (Given f0_49))) = 422.
Proof.
  split.
  - refine (proj2 (proj2 (proj2 (proj2 tts_validation))) "hello" _).
    discriminate.
  - refine (proj1 (proj2 tts_validation)
              (mkRequest (Given "hello") Omitted Omitted (Given f0_49))
              f0_49 _ _ _).
    + reflexivity.
    + reflexivity.
    + intros Hv. apply speed_in_range_value in Hv; [discriminate |].
      reflexivity.
Defined.

(** C7: a valid request is handled, and its response has status 200, media
    type [audio/pcm], the three audio headers and no other, and for body
    the generator made by [stream_tts_bytes] from the resolved
    parameters. *)
Theorem tts_response_shape (r : request) :
  valid r = true ->
  exists t v l s,
    resolve text_query (r_text r) = Some t
    /\ resolve voice_query (r_voice r) = Some v
    /\ resolve lang_query (r_lang r) = Some l
    /\ resolve speed_query (r_speed r) = Some s
    /\ GET_tts r
       = Handled
           {| status_code := 200;
              media_type := "audio/pcm";
              headers := [("X-Audio-Sample-Rate", "24000");
                          ("X-Audio-Codec", "s16le");
                          ("X-Audio-Channels", "1")];
              body_iterator := Bridge.stream_tts_bytes t v s l |}
    /\ status_of (GET_tts r) = 200.
Proof.
  unfold valid. intros H.
  repeat (apply andb_prop in H as [H ?]).
  repeat match goal with
         | H : bool_decide _ = true |- _ =>
             apply bool_decide_eq_true_1 in H; destruct H
         end.
  do 4 eexists. repeat (split; [eassumption |]).
  unfold GET_tts.
  repeat match goal with H : resolve _ _ = Some _ |- _ => rewrite H; clear H end.
  split; reflexivity.
Qed.

(** The request of the end-to-end example:
    [text=hello&lang=a&voice=af_heart&speed=1.0]. *)
Lemma tts_response_shape_witness :
  exists t v l s,
    resolve text_query (Given "hello") = Some t
    /\ resolve voice_query (Given "af_heart") = Some v
    /\ resolve lang_query (Given "a") = Some l
    /\ resolve speed_query (Given f1_0) = Some s
    /\ GET_tts (mkRequest (Given "hello") (Given "af_heart") (Given "a")
                  (Given f1_0))
       = Handled
           {| status_code := 200;
              media_type := "audio/pcm";
              headers := [("X-Audio-Sample-Rate", "24000");
                          ("X-Audio-Codec", "s16le");
                          ("X-Audio-Channels", "1")];
              body_iterator := Bridge.stream_tts_bytes t v s l |}
    /\ status_of (GET_tts (mkRequest (Given "hello") (Given "af_heart")
                            (Given "a") (Given f1_0))) = 200.
Proof.
  apply (tts_response_shape
           (mkRequest (Given "hello") (Given "af_heart") (Given "a")
              (Given f1_0))).
  reflexivity.
Defined.

End EndpointFacts.

(** ** The module-level guard *)

Module MainGuardFacts.
Import MainGuard.

(** C9: whatever name the module runs under, the test of line 107 is
    false, since it compares two different literals, and the branch that
    would start the server contributes nothing. *)
Theorem main_guard_never_taken (dunder_name : string) :
  "__name__" <> "__main__"
  /\ guard dunder_name = false
  /\ module_tail dunder_name = []
  /\ module_tail "__main__" = [].
Proof. repeat split. discriminate. Qed.

End MainGuardFacts.

(** ** The factory *)

Module FactoryFacts.
Import Factory.
#[local] Arguments String.append !_ _ / : simpl nomatch.

Lemma prefix_append (n rest : string) : String.prefix n (n ++ rest) = true.
Proof.
  induction n as [| c n IH]; cbn.
  - by destruct rest.
  - destruct (ascii_dec c c); [exact IH | done].
Qed.

Lemma occurs_in_here (n rest : string) : occurs_in n (n ++ rest) = true.
Proof.
  pose proof (prefix_append n rest) as H.
  destruct (n ++ rest); cbn [occurs_in]; by rewrite H.
Qed.

Lemma occurs_in_later (n pre hay : string) :
  occurs_in n hay = true -> occurs_in n (pre ++ hay) = true.
Proof.
  intros H. induction pre as [| c pre IH]; cbn; [exact H |].
  rewrite IH. apply orb_true_r.
Qed.

Lemma occurs_in_middle (n pre post : string) :
  occurs_in n (pre ++ n ++ post) = true.
Proof. apply occurs_in_later, occurs_in_here. Qed.

Lemma append_empty_r (a : string) : a ++ "" = a.
Proof. induction a as [| x a IH]; cbn; [done | by rewrite IH]. Qed.

Lemma append_assoc (a b c : string) : (a ++ b) ++ c = a ++ b ++ c.
Proof. induction a as [| x a IH]; cbn; [done | by rewrite IH]. Qed.

(** Each joined part stands in the joined text. *)
Lemma join_holds (sep : string) (parts : list string) (x : string) :
  x ∈ parts -> exists pre post, join sep parts = pre ++ x ++ post.
Proof.
  induction parts as [| y rest IH]; intros Hin.
  - by apply not_elem_of_nil in Hin.
  - apply elem_of_cons in Hin as [<- | Hin].
    + destruct rest as [| z rest'].
      * exists "", "". cbn. by rewrite append_empty_r.
      * exists "", (sep ++ join sep (z :: rest')). reflexivity.
    + destruct (IH Hin) as (pre & post & E).
      destruct rest as [| z rest']; [by apply not_elem_of_nil in Hin |].
      exists (y ++ sep ++ pre), post.
      change (join sep (y :: z :: rest'))
        with (y ++ sep ++ join sep (z :: rest')).
      rewrite E. by rewrite !append_assoc.
Qed.

Section Facts.

Variable unicode_printable : N -> bool.

Lemma message_lists (reg : registry) (engine_name n : string) :
  n ∈ engines reg ->
  occurs_in (repr_str unicode_printable n)
    (not_found_message unicode_printable reg engine_name) = true.
Proof.
  intros Hin. unfold not_found_message, repr_list.
  assert (Hr : repr_str unicode_printable n
               ∈ map (repr_str unicode_printable) (engines reg)).
  { apply list_elem_of_In, in_map, list_elem_of_In, Hin. }
  destruct (join_holds ", " _ _ Hr) as (pre & post & ->).
  replace ("Engine '" ++ engine_name ++ "' không tồn tại. Engines: "
             ++ "[" ++ (pre ++ repr_str unicode_printable n ++ post) ++ "]")
    with (("Engine '" ++ engine_name ++ "' không tồn tại. Engines: "
             ++ "[" ++ pre) ++ repr_str unicode_printable n ++ (post ++ "]"))
    by (rewrite !append_assoc; reflexivity).
  apply occurs_in_middle.
Qed.

Lemma get_plugin_class_none (reg : registry) (name : string) :
  get_plugin_class reg name = None <-> name ∉ engines reg.
Proof.
  induction reg as [| [k cls] rest IH]; cbn.
  - split; [intros _; apply not_elem_of_nil | done].
  - destruct (String.eqb_spec k name) as [-> | Hne].
    + split; [done | intros H; exfalso; apply H, list_elem_of_here].
    + rewrite IH. rewrite not_elem_of_cons. split; [by split | by intros []].
Qed.

Lemma get_plugin_class_some (reg : registry) (name : string)
    (cls : PluginClass) :
  get_plugin_class reg name = Some cls -> (name, cls) ∈ reg.
Proof.
  induction reg as [| [k c] rest IH]; cbn; [done |].
  destruct (String.eqb_spec k name) as [-> | Hne].
  - intros [= ->]. apply list_elem_of_here.
  - intros H. apply list_elem_of_further, IH, H.
Qed.

(** Keyword arguments that do not name [engine_name] reach the body. *)
Lemma create_binds (reg : registry) (engine_name : string) (kw : kwargs) :
  kw !! "engine_name" = None ->
  create unicode_printable reg engine_name kw
  = create_body unicode_printable reg engine_name kw.
Proof.
  intros H. unfold create.
  rewrite bool_decide_eq_false_2; [reflexivity |].
  rewrite H. by intros [? ?].
Qed.

(** C8, amended: keyword arguments that themselves name [engine_name]
    make the call raise [TypeError] before the body runs, whatever the
    registry holds.  For all other keyword arguments: for a name the
    registry does not hold, [create] raises [KeyError] with the message of
    line 14, which ends with the list of registered names and so shows
    each of them; for a registered name it calls the class registered
    under that name on the keyword arguments, and when the initialiser
    accepts them the result is an instance of that class holding them. *)
Theorem create_spec (reg : registry) (engine_name : string) (kw : kwargs) :
  (is_Some (kw !! "engine_name") ->
     create unicode_printable reg engine_name kw
     = Raise (TypeError_multiple_values "TTSFactory.create" "engine_name"))
  /\ (kw !! "engine_name" = None ->
      (engine_name ∉ engines reg ->
         create unicode_printable reg engine_name kw
         = Raise (KeyError ("Engine '" ++ engine_name
                            ++ "' không tồn tại. Engines: "
                            ++ repr_list unicode_printable (engines reg)))
         /\ forall n, n ∈ engines reg ->
              occurs_in (repr_str unicode_printable n)
                (not_found_message unicode_printable reg engine_name)
              = true)
      /\ (engine_name ∈ engines reg ->
          exists cls,
            (engine_name, cls) ∈ reg
            /\ get_plugin_class reg engine_name = Some cls
            /\ create unicode_printable reg engine_name kw
               = instantiate cls kw
            /\ (cls_init cls kw = None ->
                create unicode_printable reg engine_name kw
                = Return {| instance_of := cls; engine_kwargs := kw |}))).
Proof.
  split.
  - intros H. unfold create. by rewrite bool_decide_eq_true_2.
  - intros Hkw. rewrite (create_binds reg engine_name kw Hkw). split.
    + intros Hout. split.
      * unfold create_body. apply get_plugin_class_none in Hout.
        by rewrite Hout.
      * intros n. apply message_lists.
    + intros Hin.
      destruct (get_plugin_class reg engine_name) as [cls |] eqn:E.
      * exists cls. split; [by apply get_plugin_class_some |].
        split; [done |]. unfold create_body. rewrite E. split; [done |].
        intros Hinit. unfold instantiate. by rewrite Hinit.
      * apply get_plugin_class_none in E. done.
Qed.

End Facts.

(** [repr] on some texts: plain ASCII, a single quote inside, the
    no-break space U+00A0, a printable Latin-1 letter, the zero-width space
    U+200B with a table that calls it unprintable, and a byte that is no
    text. *)
Lemma repr_str_samples :
  repr_str (fun _ => false) "xtts" = "'xtts'"
  /\ repr_str (fun _ => false) "it's"
     = String (ascii_of_nat 34) ("it's" ++ String (ascii_of_nat 34) "")
  /\ repr_str (fun _ => false)
       (String (ascii_of_nat 194) (String (ascii_of_nat 160) ""))
     = "'\xa0'"
  /\ repr_str (fun _ => false) "é" = "'é'"
  /\ repr_str (fun _ => false)
       (String (ascii_of_nat 226)
          (String (ascii_of_nat 128) (String (ascii_of_nat 139) "")))
     = "'\u" ++ "200b'"
  /\ repr_str (fun _ => true) (String (ascii_of_nat 255) "") = "'\udcff'".
Proof. repeat split; vm_compute; reflexivity. Qed.

(** C8 as stated fails: with keyword arguments that name [engine_name],
    an unregistered name does not give the not-found error, and a
    registered name does not give an instance. *)
Lemma create_duplicate_engine_name :
  ("doesnotexist" ∉ engines [("xtts", XTTS.XTTSPlugin)])
  /\ ("xtts" ∈ engines [("xtts", XTTS.XTTSPlugin)])
  /\ create (fun _ => true) [("xtts", XTTS.XTTSPlugin)] "doesnotexist"
       {["engine_name" := VStr "other"]}
     = Raise (TypeError_multiple_values "TTSFactory.create" "engine_name")
  /\ (forall msg,
        create (fun _ => true) [("xtts", XTTS.XTTSPlugin)] "doesnotexist"
          {["engine_name" := VStr "other"]}
        <> Raise (KeyError msg))
  /\ (forall p,
        create (fun _ => true) [("xtts", XTTS.XTTSPlugin)] "xtts"
          {["engine_name" := VStr "other"]}
        <> Return p).
Proof.
  split; [| split; [| split; [| split]]].
  - cbn. intros H. apply elem_of_cons in H as [H | H]; [discriminate |].
    by apply not_elem_of_nil in H.
  - cbn. apply list_elem_of_here.
  - reflexivity.
  - intros msg H. vm_compute in H. discriminate.
  - intros p H. vm_compute in H. discriminate.
Qed.

(** The unknown name of the spec's example, with no keyword arguments,
    against a registry that holds the XTTS plugin. *)
Lemma create_spec_witness :
  create (fun _ => true) [("xtts", XTTS.XTTSPlugin)] "doesnotexist" ∅
  = Raise (KeyError
             "Engine 'doesnotexist' không tồn tại. Engines: ['xtts']").
Proof.
  refine (proj1 (proj1 (proj2 (create_spec (fun _ => true)
                                 [("xtts", XTTS.XTTSPlugin)]
                                 "doesnotexist" ∅) _) _)).
  - reflexivity.
  - vm_compute. intros H. inversion H as [| ? ? ? H']; subst.
    inversion H'.
Defined.

End FactoryFacts.

(** ** The XTTS plugin *)

Module XTTSFacts.
Import XTTS.

Section Facts.

Variable CoquiEngine_t : Type.
Variable CoquiEngine : kwargs -> outcome CoquiEngine_t.

(** C10: with a ["model"] entry in [engine_kwargs] the call of [dict]
    raises the duplicate-keyword [TypeError] and [CoquiEngine] is not
    called; without one, [build_engine] is the call of [CoquiEngine] on
    keyword arguments that hold [model="xtts"] and every entry of
    [engine_kwargs], and nothing else. *)
Theorem build_engine_model_keyword (self : Factory.plugin) :
  (is_Some (Factory.engine_kwargs self !! "model") ->
     build_engine CoquiEngine_t CoquiEngine self
     = Raise (TypeError_multiple_values "dict" "model"))
  /\ (Factory.engine_kwargs self !! "model" = None ->
      exists passed : kwargs,
        build_engine CoquiEngine_t CoquiEngine self = CoquiEngine passed
        /\ passed !! "model" = Some (VStr "xtts")
        /\ (forall k v, Factory.engine_kwargs self !! k = Some v ->
                        passed !! k = Some v)
        /\ (forall k, k <> "model" ->
                      passed !! k = Factory.engine_kwargs self !! k)).
Proof.
  unfold build_engine, dict_call. split.
  - intros H. by rewrite bool_decide_eq_true_2.
  - intros H. rewrite bool_decide_eq_false_2
      by (rewrite H; intros [? ?]; discriminate).
    eexists. split; [reflexivity |]. split; [apply lookup_insert_eq |].
    split.
    + intros k v Hk. rewrite lookup_insert_ne; [done |].
      intros <-. rewrite H in Hk. discriminate.
    + intros k Hk. by rewrite lookup_insert_ne.
Qed.

End Facts.

(** A plugin configured with [model="other"], against an engine
    constructor that hands back its keyword arguments. *)
Lemma build_engine_model_keyword_witness :
  build_engine kwargs Return
    {| Factory.instance_of := XTTSPlugin;
       Factory.engine_kwargs := {["model" := VStr "other"]} |}
  = Raise (TypeError_multiple_values "dict" "model").
Proof.
  refine (proj1 (build_engine_model_keyword kwargs Return _) _).
  cbn. rewrite lookup_singleton_eq. eauto.
Defined.

End XTTSFacts.

(** * Further properties *)

(** ** The engine pool and the lifespan hooks *)

Module PoolExtras.
Import Pool.
Local Open Scope list_scope.

Section Extras.

Variable load_fails : nat -> string -> bool.

(** Runs the pool and lifespan code forward on the facts at hand. *)
Ltac run_pool :=
  unfold lifespan_enter, lifespan_exit, clear_engines, preload_loop,
    PRELOAD_LANGS, get_engine, bind, has_engine, with_ENGINE_LOCK,
    KokoroEngine_new, store_engine, print, read_engine, ret;
  repeat first
    [ progress cbn
    | match goal with
      | H : ENGINES _ !! _ = _ |- _ => rewrite H
      | H : ENGINE_LOCK _ = _ |- _ => rewrite H
      | H : load_fails _ _ = _ |- _ => rewrite H
      | H : forall n l, load_fails n l = false |- _ => rewrite !H
      end
    | rewrite bool_decide_eq_true_2 by eauto
    | rewrite bool_decide_eq_false_2 by (intros [? ?]; discriminate)
    | rewrite lookup_insert_eq
    | rewrite lookup_insert_ne by done ].

(** X1: while somebody holds the lock, a language already in the pool is
    still served at once, with nothing changed, and a language not yet in
    the pool parks the caller without building anything. *)
Theorem get_engine_under_held_lock (lang : string) (st : process) :
  ENGINE_LOCK st = true ->
  (forall e, ENGINES st !! lang = Some e ->
             get_engine load_fails lang st = (Return e, st))
  /\ (ENGINES st !! lang = None ->
      get_engine load_fails lang st = (Suspended, st)).
Proof.
  intros L. split.
  - intros e H. run_pool. reflexivity.
  - intros H. run_pool. reflexivity.
Qed.

(** X2: [get_engine] and both halves of [lifespan], entered with the lock
    free, leave it free, whether they return or raise. *)
Theorem lock_is_released (lang : string) (st : process) :
  ENGINE_LOCK st = false ->
  ENGINE_LOCK (snd (get_engine load_fails lang st)) = false
  /\ ENGINE_LOCK (snd (lifespan_enter load_fails st)) = false
  /\ ENGINE_LOCK (snd (lifespan_exit st)) = false.
Proof.
  intros L. split; [| split].
  - destruct (PoolFacts.get_engine_cases load_fails lang st)
      as [(e & _ & G) | [(_ & L' & _) | [(_ & _ & _ & G) | (_ & _ & _ & G)]]];
      try (rewrite G; cbn; done).
    congruence.
  - unfold lifespan_enter, bind, with_ENGINE_LOCK, print. rewrite L.
    destruct (preload_loop load_fails PRELOAD_LANGS (set_lock true st))
      as [[[] | e |] st']; reflexivity.
  - unfold lifespan_exit, bind, with_ENGINE_LOCK, print, clear_engines.
    rewrite L. reflexivity.
Qed.

Lemma pool_sound_get_engine (lang : string) (st : process) :
  pool_sound st -> pool_sound (snd (get_engine load_fails lang st)).
Proof.
  intros S.
  destruct (PoolFacts.get_engine_cases load_fails lang st)
    as [(e' & _ & G) | [(_ & _ & G) | [(_ & _ & _ & G) | (_ & _ & _ & G)]]];
    rewrite G; cbn [snd]; try exact S.
  - intros l e H. destruct (S l e H) as [? ?]. cbn. split; [done | lia].
  - intros l e H. cbn in H |- *.
    destruct (decide (lang = l)) as [-> | Hne].
    + rewrite lookup_insert_eq in H. injection H as <-. cbn. split; [done | lia].
    + rewrite lookup_insert_ne in H by done.
      destruct (S l e H) as [? ?]. split; [done | lia].
Qed.

Lemma pool_sound_serve (langs : list string) (st : process) :
  pool_sound st -> pool_sound (serve_langs load_fails langs st).
Proof.
  revert st. induction langs as [| l rest IH]; intros st S; cbn; [done |].
  apply IH. by apply pool_sound_get_engine.
Qed.

Lemma pool_sound_fresh : pool_sound fresh.
Proof. intros l e H. cbn in H. rewrite lookup_empty in H. discriminate. Qed.

(** X3: after any sequence of requests served by a fresh process, the
    engine filed under a language was built for that language, so the
    engines of two different languages are different objects, and the
    engine that a further call returns is bound to the language asked for. *)
Theorem pool_entries_match_language (langs : list string) :
  let st := serve_langs load_fails langs fresh in
  (forall l e, ENGINES st !! l = Some e -> lang_code e = l)
  /\ (forall l1 l2 e1 e2,
        l1 <> l2 -> ENGINES st !! l1 = Some e1 -> ENGINES st !! l2 = Some e2 ->
        e1 <> e2)
  /\ (forall lang e st',
        get_engine load_fails lang st = (Return e, st') -> lang_code e = lang).
Proof.
  intros st.
  assert (S : pool_sound st) by apply pool_sound_serve, pool_sound_fresh.
  split; [| split].
  - intros l e H. by destruct (S l e H).
  - intros l1 l2 e1 e2 Hne H1 H2 ->.
    destruct (S l1 e2 H1) as [<- _]. destruct (S l2 e2 H2) as [<- _]. done.
  - intros lang e st' G.
    pose proof (pool_sound_get_engine lang st S) as S'.
    rewrite G in S'. cbn [snd] in S'.
    pose proof (PoolFacts.get_engine_returns_cached load_fails _ _ _ _ G) as H.
    by destruct (S' lang e H).
Qed.

Lemma get_engine_accounting (lang : string) (st : process) :
  (forall n l, load_fails n l = false) ->
  ENGINE_LOCK st = false ->
  let st' := snd (get_engine load_fails lang st) in
  ENGINE_LOCK st' = false
  /\ dom (ENGINES st') = {[lang]} ∪ dom (ENGINES st)
  /\ ctor_calls st' + size (ENGINES st) = ctor_calls st + size (ENGINES st').
Proof.
  intros Hok L st'. subst st'.
  destruct (PoolFacts.get_engine_cases load_fails lang st)
    as [(e & He & G) | [(_ & L' & _) | [(_ & _ & F & _) | (Hn & _ & _ & G)]]].
  - rewrite G. cbn [snd]. split; [done |]. split; [| done].
    assert (lang ∈ dom (ENGINES st)) by (apply elem_of_dom; eauto).
    set_solver.
  - congruence.
  - rewrite Hok in F. discriminate.
  - rewrite G. cbn. split; [done |]. split; [apply dom_insert_L |].
    rewrite map_size_insert_None by done. lia.
Qed.

Lemma serve_langs_accounting (langs : list string) (st : process) :
  (forall n l, load_fails n l = false) ->
  ENGINE_LOCK st = false ->
  ENGINE_LOCK (serve_langs load_fails langs st) = false
  /\ dom (ENGINES (serve_langs load_fails langs st))
     = list_to_set langs ∪ dom (ENGINES st)
  /\ ctor_calls (serve_langs load_fails langs st) + size (ENGINES st)
     = ctor_calls st + size (ENGINES (serve_langs load_fails langs st)).
Proof.
  intros Hok. revert st. induction langs as [| x rest IH]; intros st L.
  - cbn. split; [done |]. split; [set_solver | done].
  - destruct (get_engine_accounting x st Hok L) as (L1 & D1 & C1).
    destruct (IH _ L1) as (L2 & D2 & C2).
    cbn [serve_langs list_to_set].
    split; [done |]. split; [rewrite D2, D1; set_solver | lia].
Qed.

(** X4: one call of [get_engine] calls the constructor at most once; and
    when no construction fails, a fresh process that serves any sequence
    of requests has called the constructor exactly once per distinct
    language asked for. *)
Theorem constructor_calls_counted :
  (forall lang st,
     ctor_calls st <= ctor_calls (snd (get_engine load_fails lang st))
     /\ ctor_calls (snd (get_engine load_fails lang st)) <= S (ctor_calls st))
  /\ ((forall n l, load_fails n l = false) ->
      forall langs : list string,
        ctor_calls (serve_langs load_fails langs fresh)
        = size (list_to_set langs : gset string)).
Proof.
  split.
  - intros lang st.
    destruct (PoolFacts.get_engine_cases load_fails lang st)
      as [(e & _ & G) | [(_ & _ & G) | [(_ & _ & _ & G) | (_ & _ & _ & G)]]];
      rewrite G; cbn; lia.
  - intros Hok langs.
    destruct (serve_langs_accounting langs fresh Hok eq_refl) as (_ & D & C).
    cbn [fresh ENGINES ctor_calls] in C, D.
    rewrite map_size_empty in C. rewrite <- size_dom, D in C.
    rewrite dom_empty_L, union_empty_r_L in C. lia.
Qed.

(** X5: entered with the lock free on any pool, and with no construction
    failing, the first half of [lifespan] returns with both hot languages
    in the pool, keeps every engine that was there, builds only the hot
    languages that were missing, frees the lock, and prints the closing
    line last. *)
Theorem lifespan_enter_fills_pool (st : process) :
  (forall n l, load_fails n l = false) ->
  ENGINE_LOCK st = false ->
  let r := lifespan_enter load_fails st in
  fst r = Return tt
  /\ (forall l, l ∈ PRELOAD_LANGS -> is_Some (ENGINES (snd r) !! l))
  /\ (forall l e, ENGINES st !! l = Some e -> ENGINES (snd r) !! l = Some e)
  /\ ENGINE_LOCK (snd r) = false
  /\ ctor_calls (snd r)
     = ctor_calls st
       + match ENGINES st !! "a" with Some _ => 0 | None => 1 end
       + match ENGINES st !! "b" with Some _ => 0 | None => 1 end
  /\ last (stdout (snd r)) = Some "[Startup] All preloads done.".
Proof.
  intros Hok L r. subst r.
  assert (Hhot : forall (m : gmap string KokoroEngine),
            is_Some (m !! "a") -> is_Some (m !! "b") ->
            forall l, l ∈ PRELOAD_LANGS -> is_Some (m !! l)).
  { intros m Ha Hb l Hl. unfold PRELOAD_LANGS in Hl.
    apply elem_of_cons in Hl as [-> | Hl]; [done |].
    apply elem_of_cons in Hl as [-> | Hl]; [done |].
    by apply not_elem_of_nil in Hl. }
  destruct (ENGINES st !! "a") as [ea |] eqn:Ha;
    destruct (ENGINES st !! "b") as [eb |] eqn:Hb; run_pool;
    (split; [reflexivity |]);
    (split; [apply Hhot; simplify_map_eq; eauto |]);
    (split; [intros l e H; repeat (rewrite lookup_insert_ne by congruence);
             exact H |]);
    (split; [reflexivity |]);
    (split; [lia | apply last_snoc]).
Qed.

(** X6: a construction that fails during the preload ends it at once: the
    exception leaves the first half of [lifespan], the lock is freed, the
    languages after the failing one are not attempted, an engine preloaded
    before the failure stays in the pool, and the closing line is not
    printed. *)
Theorem lifespan_enter_stops_at_failure (st : process) :
  ENGINE_LOCK st = false ->
  ENGINES st !! "a" = None ->
  (load_fails (ctor_calls st) "a" = true ->
     lifespan_enter load_fails st
     = (Raise (EngineLoadError "a" (ctor_calls st)), after_failed_load st))
  /\ (ENGINES st !! "b" = None ->
      load_fails (ctor_calls st) "a" = false ->
      load_fails (S (ctor_calls st)) "b" = true ->
      let r := lifespan_enter load_fails st in
      fst r = Raise (EngineLoadError "b" (S (ctor_calls st)))
      /\ ENGINES (snd r)
         = <["a" := mkEngine (ctor_calls st) "a"]> (ENGINES st)
      /\ ENGINE_LOCK (snd r) = false
      /\ ctor_calls (snd r) = S (S (ctor_calls st))
      /\ stdout (snd r)
         = stdout st ++ ["[Startup] Preloaded KokoroEngine for lang_code='a'"]).
Proof.
  intros L Ha. split.
  - intros Fa. run_pool. reflexivity.
  - intros Hb Fa Fb. run_pool. repeat split; reflexivity.
Qed.

(** X7: the second half of [lifespan] waits while the lock is held; with
    the lock free it empties the pool without touching the constructor, so
    that a language served before is then built again, as a new object. *)
Theorem lifespan_exit_discards_engines (st : process) :
  (ENGINE_LOCK st = true -> lifespan_exit st = (Suspended, st))
  /\ (ENGINE_LOCK st = false ->
      pool_sound st ->
      let r := lifespan_exit st in
      fst r = Return tt
      /\ ENGINES (snd r) = ∅
      /\ ctor_calls (snd r) = ctor_calls st
      /\ last (stdout (snd r)) = Some "[Shutdown] Engines cache cleared."
      /\ forall lang e,
           ENGINES st !! lang = Some e ->
           load_fails (ctor_calls st) lang = false ->
           exists e',
             fst (get_engine load_fails lang (snd r)) = Return e'
             /\ e' <> e /\ lang_code e' = lang).
Proof.
  split.
  - intros L. run_pool. reflexivity.
  - intros L S r. subst r.
    assert (E : lifespan_exit st
                = (Return tt,
                   {| ENGINES := ∅; ENGINE_LOCK := false;
                      ctor_calls := ctor_calls st; built := built st;
                      stdout := stdout st
                                  ++ ["[Shutdown] Engines cache cleared."] |}))
      by (run_pool; reflexivity).
    rewrite E. cbn [fst snd ENGINES ctor_calls stdout].
    repeat (split; [first [reflexivity | apply last_snoc] |]).
    intros lang e He F. exists (mkEngine (ctor_calls st) lang).
    split; [| split; [| reflexivity]].
    + rewrite PoolFacts.get_engine_miss_return;
        [reflexivity | apply lookup_empty | reflexivity | exact F].
    + intros <-. destruct (S lang _ He) as [_ Hid]. cbn in Hid. lia.
Qed.

End Extras.

(** Three requests over two languages. *)
Lemma constructor_calls_counted_witness :
  ctor_calls (serve_langs (fun _ _ => false) ["a"; "b"; "a"] fresh)
  = size (list_to_set ["a"; "b"; "a"] : gset string).
Proof.
  refine (proj2 (constructor_calls_counted (fun _ _ => false)) _
            ["a"; "b"; "a"]).
  reflexivity.
Defined.

(** The preload on a fresh process. *)
Lemma lifespan_enter_fills_pool_witness :
  fst (lifespan_enter (fun _ _ => false) fresh) = Return tt.
Proof.
  refine (proj1 (lifespan_enter_fills_pool (fun _ _ => false) fresh _ _));
    reflexivity.
Defined.

(** The preload on a fresh process whose first construction fails. *)
Lemma lifespan_enter_stops_at_failure_witness :
  lifespan_enter (fun _ _ => true) fresh
  = (Raise (EngineLoadError "a" 0), after_failed_load fresh).
Proof.
  refine (proj1 (lifespan_enter_stops_at_failure (fun _ _ => true) fresh
                   _ _) _); reflexivity.
Defined.

(** Shutdown of a process that has served ["a"]. *)
Lemma lifespan_exit_discards_engines_witness :
  ENGINES (snd (lifespan_exit
                  (serve_langs (fun _ _ => false) ["a"] fresh))) = ∅.
Proof.
  refine (proj1 (proj2 (proj2 (lifespan_exit_discards_engines
                                 (fun _ _ => false)
                                 (serve_langs (fun _ _ => false) ["a"] fresh))
                          _ _))).
  - reflexivity.
  - apply pool_sound_serve, pool_sound_fresh.
Defined.

(** Two requests, for ["a"] and for ["b"], with a constructor that never
    fails. *)
Lemma pool_entries_match_language_witness :
  lang_code (mkEngine 1 "b") = "b".
Proof.
  refine (proj1 (pool_entries_match_language (fun _ _ => false) ["a"; "b"])
            "b" (mkEngine 1 "b") _).
  vm_compute. reflexivity.
Defined.

(** A process in which the lock is held and ["a"] is in the pool. *)
Lemma get_engine_under_held_lock_witness :
  get_engine (fun _ _ => false) "b"
    (set_lock true (snd (get_engine (fun _ _ => false) "a" fresh)))
  = (Suspended,
     set_lock true (snd (get_engine (fun _ _ => false) "a" fresh))).
Proof.
  refine (proj2 (get_engine_under_held_lock (fun _ _ => false) "b" _ _) _);
    reflexivity.
Defined.

(** A fresh process and a constructor that fails. *)
Lemma lock_is_released_witness :
  ENGINE_LOCK (snd (get_engine (fun _ _ => true) "a" fresh)) = false.
Proof.
  refine (proj1 (lock_is_released (fun _ _ => true) "a" fresh _)).
  reflexivity.
Defined.

End PoolExtras.

(** ** The consumer loop *)

Module BridgeExtras.
Import Bridge.
Local Open Scope list_scope.

(** X8: the loop ends only through the stop callback: as long as the
    session has not called [on_stop], whatever chunks arrive and however
    often the consumer moves, [done] is unset and the generator has not
    ended. *)
Theorem no_end_before_stop (sched : list event) :
  stop_signalled sched = false ->
  done (run sched fresh_bridge) = false
  /\ at_ (run sched fresh_bridge) <> Stopped.
Proof.
  intros H. split.
  - rewrite BridgeFacts.run_done, H. reflexivity.
  - intros Hend.
    destruct (BridgeFacts.stopped_split _ Hend) as (s1 & s2 & -> & S1 & _).
    rewrite BridgeFacts.stop_signalled_app, S1 in H. discriminate.
Qed.

(** A session that delivers two chunks and never signals stop. *)
Lemma no_end_before_stop_witness :
  at_ (run [OnChunk [x01]; Advance; Advance; OnChunk [x02]; Advance;
            Advance; Advance; Advance; Advance] fresh_bridge) <> Stopped.
Proof.
  refine (proj2 (no_end_before_stop
                   [OnChunk [x01]; Advance; Advance; OnChunk [x02]; Advance;
                    Advance; Advance; Advance; Advance] _)).
  reflexivity.
Defined.

Lemma advance_keeps_done (st : bridge) : done (advance st) = done st.
Proof.
  unfold advance. destruct (at_ st); [| | done].
  - destruct (done st && bool_decide (q st = [])); done.
  - destruct (q st); done.
Qed.

Lemma moves_left_stopped (st : bridge) :
  at_ st = Stopped <-> moves_left st = 0.
Proof.
  split; [| apply BridgeFacts.moves_left_0].
  intros H. unfold moves_left. by rewrite H.
Qed.

Lemma run_advances (n : nat) (st : bridge) :
  run (repeat Advance (S n)) st = run (repeat Advance n) (advance st).
Proof. reflexivity. Qed.

(** With [done] set and nothing more arriving, each move of the consumer
    brings the end one move nearer. *)
Lemma moves_left_countdown (n : nat) (st : bridge) :
  done st = true ->
  moves_left (run (repeat Advance n) st) = moves_left st - n.
Proof.
  revert st. induction n as [| n IH]; intros st D.
  - cbn. lia.
  - rewrite run_advances, IH by (by rewrite advance_keeps_done).
    assert (Hpos : at_ st = Stopped \/ at_ st <> Stopped)
      by (destruct (at_ st); auto).
    destruct Hpos as [S | N].
    + unfold advance. rewrite S.
      apply moves_left_stopped in S. lia.
    + pose proof (BridgeFacts.moves_left_advance st D N). lia.
Qed.

Lemma drained_at_end (n : nat) (st : bridge) :
  done st = true -> at_ st <> Stopped ->
  at_ (run (repeat Advance n) st) = Stopped ->
  q (run (repeat Advance n) st) = [].
Proof.
  revert st. induction n as [| n IH]; intros st D N Hend; [done |].
  rewrite run_advances in Hend |- *.
  assert (Hpos : at_ (advance st) = Stopped \/ at_ (advance st) <> Stopped)
    by (destruct (at_ (advance st)); auto).
  destruct Hpos as [S | N'].
  - assert (Hq : q (advance st) = []).
    { revert S. unfold advance. destruct (at_ st) eqn:P; [| | done].
      - destruct (done st); cbn; [| done].
        destruct (bool_decide (q st = [])) eqn:E; cbn; [| done].
        by apply bool_decide_eq_true_1 in E.
      - destruct (q st); done. }
    pose proof (BridgeFacts.run_fifo (repeat Advance n) (advance st)) as F.
    destruct (BridgeFacts.run_stopped (repeat Advance n) _ S) as [_ Y].
    rewrite Y, Hq in F.
    assert (E : enqueued (repeat Advance n) = [])
      by (clear; induction n; done).
    rewrite E, !app_nil_r in F.
    apply (f_equal length) in F. rewrite length_app in F.
    destruct (q (run (repeat Advance n) (advance st))); [done |].
    cbn in F. lia.
  - apply IH; [by rewrite advance_keeps_done | done | done].
Qed.

(** X9: with [done] set and no further callback, a generator at the top
    of its loop with [k] chunks queued ends after exactly [2k + 1] moves of
    the consumer (the count is [moves_left] in general): not before, so no
    queued chunk is cut off, and by then all [k] have been yielded in
    order. *)
Theorem drain_takes_exactly (n : nat) (st : bridge) :
  done st = true ->
  (at_ (run (repeat Advance n) st) = Stopped <-> moves_left st <= n)
  /\ (at_ st = AtTop -> moves_left st = 2 * length (q st) + 1)
  /\ (at_ st <> Stopped -> moves_left st <= n ->
      yielded (run (repeat Advance n) st) = yielded st ++ q st).
Proof.
  intros D.
  assert (Hiff : at_ (run (repeat Advance n) st) = Stopped
                 <-> moves_left st <= n).
  { rewrite moves_left_stopped, (moves_left_countdown n st D). lia. }
  split; [exact Hiff |]. split.
  - intros P. unfold moves_left. by rewrite P.
  - intros N Hn. apply Hiff in Hn.
    pose proof (BridgeFacts.run_fifo (repeat Advance n) st) as F.
    rewrite (drained_at_end n st D N Hn) in F.
    assert (E : enqueued (repeat Advance n) = [])
      by (clear; induction n; done).
    by rewrite E, !app_nil_r in F.
Qed.

(** Two chunks queued, stop signalled, consumer at the top of the loop:
    five moves. *)
Lemma drain_takes_exactly_witness :
  yielded (run (repeat Advance 5)
             {| q := [[x01]; [x02]]; done := true; at_ := AtTop;
                yielded := [] |})
  = [[x01]; [x02]].
Proof.
  refine (proj2 (proj2 (drain_takes_exactly 5
                          {| q := [[x01]; [x02]]; done := true; at_ := AtTop;
                             yielded := [] |} _)) _ _).
  - reflexivity.
  - discriminate.
  - vm_compute. lia.
Defined.

End BridgeExtras.

(** ** Validation at the endpoint *)

Module EndpointExtras.
Import Endpoint.

(** X10: for a binary64 speed, the declared constraints pass exactly the
    values that stand for a number of the closed interval from 0.5 to 2.0:
    the parameter resolves to the value given in that case and is refused
    in every other. *)
Theorem speed_constraint_is_the_interval (x : spec_float) :
  valid_binary prec emax x = true ->
  (resolve speed_query (Given x) = Some x <-> value_in_range x)
  /\ (resolve speed_query (Given x) = None <-> ~ value_in_range x).
Proof.
  intros V. pose proof (EndpointFacts.speed_in_range_value x V) as H.
  cbn [resolve speed_query q_check].
  destruct (speed_in_range x); split; split; try done.
  - intros _. by apply H.
  - intros Hn. exfalso. apply Hn. by apply H.
  - intros Hv. apply H in Hv. discriminate.
  - intros _ Hv. apply H in Hv. discriminate.
Qed.

(** The default speed. *)
Lemma speed_constraint_is_the_interval_witness :
  resolve speed_query (Given f1_0) = Some f1_0 <-> value_in_range f1_0.
Proof.
  refine (proj1 (speed_constraint_is_the_interval f1_0 _)). reflexivity.
Defined.

Lemma resolve_text_is_some (v : supplied string) :
  is_Some (resolve text_query v) <-> exists t, v = Given t /\ t <> "".
Proof.
  split.
  - intros [t H]. exists t. by apply EndpointFacts.resolve_text_some.
  - intros (t & -> & Ht). exists t.
    by apply EndpointFacts.resolve_text_some.
Qed.

Lemma resolve_voice_is_some (v : supplied string) :
  is_Some (resolve voice_query v) <-> v <> Unparsable.
Proof.
  destruct v; cbn.
  - split; [done | eauto].
  - split; [by intros [] | done].
  - split; [done | eauto].
Qed.

Lemma resolve_lang_is_some (v : supplied string) :
  is_Some (resolve lang_query v) <-> v <> Unparsable.
Proof.
  destruct v; cbn.
  - split; [done | eauto].
  - split; [by intros [] | done].
  - split; [done | eauto].
Qed.

Lemma resolve_speed_is_some (v : supplied spec_float) :
  is_Some (resolve speed_query v)
  <-> v = Omitted \/ exists x, v = Given x /\ speed_in_range x = true.
Proof.
  destruct v as [| | x]; cbn [resolve speed_query q_default q_check].
  - split; [by left | eauto].
  - split; [by intros [] | intros [| (x & ? & _)]; done].
  - destruct (speed_in_range x) eqn:E.
    + split; [right; eauto | eauto].
    + split; [by intros [] |].
      intros [| (x0 & [= <-] & Hx)]; [done | congruence].
Qed.

Lemma handled_iff_resolved (r : request) :
  (exists resp, GET_tts r = Handled resp)
  <-> is_Some (resolve text_query (r_text r))
      /\ is_Some (resolve voice_query (r_voice r))
      /\ is_Some (resolve lang_query (r_lang r))
      /\ is_Some (resolve speed_query (r_speed r)).
Proof.
  unfold GET_tts.
  destruct (resolve text_query _), (resolve voice_query _),
    (resolve lang_query _), (resolve speed_query _);
    split;
    try (intros [resp H]; discriminate);
    try (intros (H1 & H2 & H3 & H4);
         first [by destruct H1 | by destruct H2 | by destruct H3
               | by destruct H4]);
    eauto 10.
Qed.

(** X11: the handler runs exactly when [text] is present and non-empty,
    [voice] and [lang] are absent or any string at all, and [speed] is
    absent or passes its constraints; every other request is answered 422
    with at least one parameter named. *)
Theorem handler_runs_iff (r : request) :
  ((exists resp, GET_tts r = Handled resp)
   <-> (exists t, r_text r = Given t /\ t <> "")
       /\ r_voice r <> Unparsable
       /\ r_lang r <> Unparsable
       /\ (r_speed r = Omitted
           \/ exists x, r_speed r = Given x /\ speed_in_range x = true))
  /\ (status_of (GET_tts r) = 200 \/ status_of (GET_tts r) = 422)
  /\ (forall bad, GET_tts r = Unprocessable422 bad -> bad <> []).
Proof.
  split; [| split].
  - rewrite handled_iff_resolved, resolve_text_is_some,
      resolve_voice_is_some, resolve_lang_is_some, resolve_speed_is_some.
    reflexivity.
  - unfold GET_tts.
    destruct (resolve text_query _), (resolve voice_query _),
      (resolve lang_query _), (resolve speed_query _); cbn; auto.
  - unfold GET_tts.
    destruct (resolve text_query _), (resolve voice_query _),
      (resolve lang_query _), (resolve speed_query _); cbn;
      intros bad H; try discriminate; injection H as <-; done.
Qed.

(** X12: a speed that is NaN, infinite, zero or negative is refused,
    whatever the other parameters are. *)
Theorem speed_outside_reals_refused (r : request) (x : spec_float) :
  r_speed r = Given x ->
  (x = S754_nan
   \/ (exists s, x = S754_infinity s)
   \/ (exists s, x = S754_zero s)
   \/ (exists m e, x = S754_finite true m e)) ->
  status_of (GET_tts r) = 422
  /\ forall resp, GET_tts r <> Handled resp.
Proof.
  intros Hs Hx.
  assert (E : resolve speed_query (r_speed r) = None).
  { rewrite Hs. cbn [resolve speed_query q_check].
    destruct Hx as [-> | [[s ->] | [[s ->] | (m & e & ->)]]];
      try reflexivity; destruct s; reflexivity. }
  unfold GET_tts. rewrite E.
  destruct (resolve text_query _), (resolve voice_query _),
    (resolve lang_query _); split; try reflexivity; intros resp H;
    discriminate.
Qed.

(** The request [text=hello&speed=nan]. *)
Lemma speed_outside_reals_refused_witness :
  status_of (GET_tts (mkRequest (Given "hello") Omitted Omitted
                        (Given S754_nan))) = 422.
Proof.
  refine (proj1 (speed_outside_reals_refused
                   (mkRequest (Given "hello") Omitted Omitted
                      (Given S754_nan)) S754_nan _ _)).
  - reflexivity.
  - left. reflexivity.
Defined.

End EndpointExtras.

(** ** From the request to the engine *)

Module RequestExtras.
Import Bridge.

Section Extras.

Variable load_fails : nat -> string -> bool.

Lemma open_session_returns (g : generator) (st st1 : Pool.process)
    (s : session) :
  open_session load_fails g st = (Return s, st1) ->
  Pool.get_engine load_fails (g_lang g) st = (Return (s_engine s), st1)
  /\ s_muted s = true /\ s_voice s = g_voice g
  /\ s_speed s = g_speed g /\ s_text s = g_text g.
Proof.
  unfold open_session, Pool.bind, Pool.ret.
  destruct (Pool.get_engine load_fails (g_lang g) st) as [[e | e |] st'];
    intros H; try discriminate.
  injection H as <- <-. repeat split; reflexivity.
Qed.

(** X13: when the body of one request has opened its session, the body of
    a later request for the same language opens its own on the very same
    engine object, without touching the pool or the constructor, and with
    its own text, voice and speed. *)
Theorem sessions_share_the_engine (g1 g2 : generator)
    (st st1 : Pool.process) (s1 : session) :
  g_lang g2 = g_lang g1 ->
  open_session load_fails g1 st = (Return s1, st1) ->
  exists s2,
    open_session load_fails g2 st1 = (Return s2, st1)
    /\ s_engine s2 = s_engine s1
    /\ s_text s2 = g_text g2 /\ s_voice s2 = g_voice g2
    /\ s_speed s2 = g_speed g2 /\ s_muted s2 = true.
Proof.
  intros Hl H. apply open_session_returns in H as (G & _).
  apply PoolFacts.get_engine_returns_cached in G.
  eexists. split.
  - unfold open_session, Pool.bind, Pool.ret. rewrite Hl.
    rewrite (PoolFacts.get_engine_hit load_fails _ _ _ G). reflexivity.
  - repeat split; reflexivity.
Qed.

(** X14: a request that passes validation is answered with status 200
    before its engine exists; when the construction then fails, the
    exception comes out of the body before any chunk, whatever the session
    would have done, and it is not remembered: driving the body of the
    same request again builds the engine if the constructor now succeeds. *)
Theorem construction_failure_surfaces_in_body (r : Endpoint.request)
    (resp : Endpoint.StreamingResponse) (st : Pool.process)
    (sched : list event) :
  Endpoint.GET_tts r = Endpoint.Handled resp ->
  Pool.ENGINES st !! g_lang (Endpoint.body_iterator resp) = None ->
  Pool.ENGINE_LOCK st = false ->
  load_fails (Pool.ctor_calls st) (g_lang (Endpoint.body_iterator resp))
  = true ->
  Endpoint.status_code resp = 200
  /\ drive load_fails (Endpoint.body_iterator resp) sched st
     = (Raise (EngineLoadError (g_lang (Endpoint.body_iterator resp))
                 (Pool.ctor_calls st)),
        Pool.after_failed_load st)
  /\ (load_fails (S (Pool.ctor_calls st))
        (g_lang (Endpoint.body_iterator resp)) = false ->
      fst (drive load_fails (Endpoint.body_iterator resp) sched
             (Pool.after_failed_load st))
      = Return (run sched fresh_bridge)).
Proof.
  intros H Hn L F. split; [| split].
  - unfold Endpoint.GET_tts in H.
    destruct (Endpoint.resolve Endpoint.text_query _),
      (Endpoint.resolve Endpoint.voice_query _),
      (Endpoint.resolve Endpoint.lang_query _),
      (Endpoint.resolve Endpoint.speed_query _); try discriminate.
    injection H as <-. reflexivity.
  - pose proof (BridgeFacts.drive_runs_loop load_fails
                  (Endpoint.body_iterator resp) sched st) as D.
    rewrite (PoolFacts.get_engine_miss_raise load_fails _ _ Hn L F) in D.
    exact D.
  - intros F2.
    pose proof (BridgeFacts.drive_runs_loop load_fails
                  (Endpoint.body_iterator resp) sched
                  (Pool.after_failed_load st)) as D.
    rewrite (PoolFacts.get_engine_miss_return load_fails _
               (Pool.after_failed_load st) Hn eq_refl F2) in D.
    by rewrite D.
Qed.

End Extras.

(** Two requests for ["a"] with different texts and voices. *)
Lemma sessions_share_the_engine_witness :
  exists s2,
    open_session (fun _ _ => false)
      (stream_tts_bytes "second" "af_bella" Endpoint.f2_0 "a")
      (snd (Pool.get_engine (fun _ _ => false) "a" Pool.fresh))
    = (Return s2, snd (Pool.get_engine (fun _ _ => false) "a" Pool.fresh))
    /\ s_engine s2 = Pool.mkEngine 0 "a"
    /\ s_text s2 = "second" /\ s_voice s2 = "af_bella"
    /\ s_speed s2 = Endpoint.f2_0 /\ s_muted s2 = true.
Proof.
  refine (sessions_share_the_engine (fun _ _ => false)
            (stream_tts_bytes "first" "af_heart" Endpoint.f1_0 "a")
            (stream_tts_bytes "second" "af_bella" Endpoint.f2_0 "a")
            Pool.fresh _
            {| s_engine := Pool.mkEngine 0 "a"; s_muted := true;
               s_voice := "af_heart"; s_speed := Endpoint.f1_0;
               s_text := "first" |} _ _).
  - reflexivity.
  - vm_compute. reflexivity.
Defined.

(** The request [text=hello] on a fresh process whose constructor fails. *)
Lemma construction_failure_surfaces_in_body_witness :
  Endpoint.status_code (Endpoint.tts "hello" "af_heart" "a" Endpoint.f1_0)
  = 200.
Proof.
  refine (proj1 (construction_failure_surfaces_in_body (fun _ _ => true)
                   (Endpoint.mkRequest (Endpoint.Given "hello")
                      Endpoint.Omitted Endpoint.Omitted Endpoint.Omitted)
                   _ Pool.fresh [] _ _ _ _)); reflexivity.
Defined.

End RequestExtras.

(** ** From the factory to the engine *)

Module PluginExtras.
Import Factory.

Section Extras.

Variable unicode_printable : N -> bool.
Variable CoquiEngine_t : Type.
Variable CoquiEngine : kwargs -> outcome CoquiEngine_t.

(** X15: when the registry holds a class under ["xtts"] whose initialiser
    takes the keyword arguments, and these do not name [engine_name]
    (which the call of [create] itself would refuse), [create] returns a
    plugin that carries them, also when they name [model]; the clash shows
    only in [build_engine], which then raises and does not reach
    [CoquiEngine]; without a [model] keyword [build_engine] gives back
    whatever [CoquiEngine] gives for the arguments plus [model="xtts"]. *)
Theorem created_plugin_builds_engine (reg : registry) (cls : PluginClass)
    (kw : kwargs) :
  get_plugin_class reg XTTS.key = Some cls ->
  cls_init cls kw = None ->
  kw !! "engine_name" = None ->
  exists p,
    create unicode_printable reg XTTS.key kw = Return p
    /\ instance_of p = cls /\ engine_kwargs p = kw
    /\ (is_Some (kw !! "model") ->
        XTTS.build_engine CoquiEngine_t CoquiEngine p
        = Raise (TypeError_multiple_values "dict" "model"))
    /\ (kw !! "model" = None ->
        XTTS.build_engine CoquiEngine_t CoquiEngine p
        = CoquiEngine (<["model" := VStr "xtts"]> kw)).
Proof.
  intros Hc Hi Hn. exists {| instance_of := cls; engine_kwargs := kw |}.
  split; [| split; [reflexivity | split; [reflexivity |]]].
  - rewrite (FactoryFacts.create_binds unicode_printable reg _ kw Hn).
    unfold create_body, instantiate. by rewrite Hc, Hi.
  - unfold XTTS.build_engine, XTTS.dict_call. cbn [engine_kwargs]. split.
    + intros H. by rewrite bool_decide_eq_true_2.
    + intros H. rewrite bool_decide_eq_false_2; [reflexivity |].
      rewrite H. by intros [? ?].
Qed.

End Extras.

(** The XTTS plugin created with [model="other"]. *)
Lemma created_plugin_builds_engine_witness :
  exists p,
    create (fun _ => true) [("xtts", XTTS.XTTSPlugin)] XTTS.key
      {["model" := VStr "other"]}
    = Return p
    /\ instance_of p = XTTS.XTTSPlugin
    /\ engine_kwargs p = {["model" := VStr "other"]}
    /\ (is_Some (({["model" := VStr "other"]} : kwargs) !! "model") ->
        XTTS.build_engine kwargs Return p
        = Raise (TypeError_multiple_values "dict" "model"))
    /\ ((({["model" := VStr "other"]} : kwargs) !! "model") = None ->
        XTTS.build_engine kwargs Return p
        = Return (<["model" := VStr "xtts"]> {["model" := VStr "other"]})).
Proof.
  refine (created_plugin_builds_engine (fun _ => true) kwargs Return
            [("xtts", XTTS.XTTSPlugin)] XTTS.XTTSPlugin
            {["model" := VStr "other"]} _ _ _); reflexivity.
Defined.

End PluginExtras.
